(** * snn-algo-compare: readout, configuration gates and stage 2 ordering

    A shallow embedding of the parts of the repository that decide what is
    read out of a simulated spiking neural network and when a run is
    refused:

    - [src/process_results/get_mdsa_results.py]: the readout of the counter
      neurons, the redundancy fallback and the comparison with the counts
      of the reference (Alipour) algorithm;
    - [src/graph_generation/stage_1_get_input_graphs.py]: the gates on the
      algorithm and adaptation settings of a run configuration;
    - [src/simulation/stage2_sim.py]: the order of the structural checks
      and of the simulation;
    - [src/get_graph.py]: the two neuron example graph.

    Python values that are inspected with [isinstance] or compared with
    [==] keep their dynamic type ([pyval]).  A Python number is modelled by
    its value: a finite float is the rational it denotes, so [1.0 == 1]
    holds.  A call either returns or raises: [py A] is [exn + A]. *)

From stdpp Require Import gmap strings list fin_maps pretty.
From Stdlib Require Import QArith.

Close Scope Q_scope.
Local Open Scope string_scope.
Local Open Scope list_scope.

(** ** Python values, exceptions and control flow *)

Inductive pyval :=
  | PyNone
  | PyBool (b : bool)
  | PyInt (z : Z)
  | PyFloat (q : Q)
  | PyStr (s : string).

(** [isinstance(v, int)]: [bool] is a subclass of [int]. *)
Definition isinstance_int (v : pyval) : bool :=
  match v with
  | PyBool _ | PyInt _ => true
  | _ => false
  end.

(** [isinstance(v, float)]. *)
Definition isinstance_float (v : pyval) : bool :=
  match v with
  | PyFloat _ => true
  | _ => false
  end.

(** [v == n] for an integer literal [n]: numbers compare by value and
    [True], [False] are the numbers 1 and 0. *)
Definition py_eq_int (v : pyval) (n : Z) : bool :=
  match v with
  | PyBool b => Z.eqb (if b then 1 else 0) n
  | PyInt z => Z.eqb z n
  | PyFloat q => Qeq_bool q (inject_Z n)
  | _ => false
  end.

(** The name of a node of a networkx graph: an integer or a string. *)
Inductive NodeName :=
  | NInt (z : Z)
  | NStr (s : string).

#[global] Instance NodeName_eq_dec : EqDecision NodeName.
Proof. solve_decision. Defined.

#[global] Instance NodeName_countable : Countable NodeName.
Proof.
  refine (inj_countable'
            (λ n, match n with NInt z => inl z | NStr s => inr s end)
            (λ x, match x with inl z => NInt z | inr s => NStr s end) _).
  by intros [].
Defined.

(** The exceptions the embedded code can raise.  The text of an
    [Exception] is the literal part of the message; values formatted into
    it by an f-string are left out. *)
Inductive exn :=
  | Exception (msg : string)
  | KeyError (key : NodeName)
  | UnboundLocalError (var : string)
  | AttributeError (msg : string)
  | IndexError (msg : string).

Definition py (A : Type) : Type := exn + A.

Definition raise {A} (e : exn) : py A := inl e.
Definition ret {A} (a : A) : py A := inr a.

Definition bind {A B} (m : py A) (k : A → py B) : py B :=
  match m with
  | inl e => inl e
  | inr a => k a
  end.

Notation "'let*' x := m 'in' k" := (bind m (λ x, k))
  (at level 10, x pattern, m at level 100, k at level 200).

(** [for x in l: s = body(s, x)], left as soon as the body raises. *)
Fixpoint py_for {A S} (l : list A) (body : S → A → py S) (s : S) : py S :=
  match l with
  | [] => ret s
  | x :: l' => let* s' := body s x in py_for l' body s'
  end.

Definition raised {A} (m : py A) : Prop := ∃ e, m = inl e.
Definition returned {A} (m : py A) : Prop := ∃ a, m = inr a.

(** ** Attributed graphs *)

(** The [nx_LIF] neuron object of a node: its current, its voltage and
    whether it spikes; the readout only calls [.u.get()]. *)
Record nx_LIF_neuron := { u_get : Q; v_get : Q; spikes : bool }.

(** The attribute dictionary of a node; [None] is an absent key. *)
Record NodeAttrs := {
  color : option string;
  bias : option Q;
  du : option Q;
  dv : option Q;
  vth : option Q;
  rad_death : option bool;
  nx_LIF : option nx_LIF_neuron
}.

(** The attribute dictionary of an edge. *)
Record EdgeAttrs := { weight : option pyval }.

(** [G.graph], the attribute dictionary of the graph itself. *)
Record GraphAttrs := {
  alg_props : option (gmap string pyval);
  sim_duration : option nat;
  completed_stages : list nat
}.

Record DiGraph := {
  nodes : gmap NodeName NodeAttrs;
  edges : list (NodeName * NodeName * EdgeAttrs);
  graph : GraphAttrs
}.

(** [len(G)]: the number of nodes. *)
Definition len (G : DiGraph) : nat := size (nodes G).

(** [G.nodes[name]]. *)
Definition node_lookup (G : DiGraph) (name : NodeName) : py NodeAttrs :=
  match nodes G !! name with
  | Some a => ret a
  | None => raise (KeyError name)
  end.

(** ** get_mdsa_results.py *)

(** [f"counter_{node_index}_{m_val}"] *)
Definition counter_name (node_index : nat) (m_val : Z) : string :=
  "counter_" +:+ pretty node_index +:+ "_" +:+ pretty m_val.

(** ["rad_death" in snn_graph.nodes[nodename].keys()] *)
Definition has_rad_death_key (a : NodeAttrs) : bool :=
  match rad_death a with
  | Some _ => true
  | None => false
  end.

Definition rad_death_not_set_msg : string :=
  "Error, rad_death key not set in all nodes of" +:+
  "graph, yet it was set for at least one node in graph:".

(** The two loops run over [snn_graph.nodes]; the order in which a
    dictionary hands out its keys does not influence either of them. *)
Definition graph_has_dead_neurons (snn_graph : DiGraph) : py bool :=
  let rad_death_found :=
    foldl (λ found '(nodename, attrs),
             if has_rad_death_key attrs then true else found)
          false (map_to_list (nodes snn_graph)) in
  if rad_death_found then
    let* _ :=
      py_for (map_to_list (nodes snn_graph))
        (λ _ '(nodename, attrs),
           if negb (has_rad_death_key attrs)
           then raise (Exception rad_death_not_set_msg)
           else ret tt)
        tt in
    ret true
  else ret false.

Definition counter_neuron_died (snn_graph : DiGraph)
    (counter_neuron_name : string) : py bool :=
  let* has := graph_has_dead_neurons snn_graph in
  if has then
    let* attrs := node_lookup snn_graph (NStr counter_neuron_name) in
    match rad_death attrs with
    | Some b => ret b
    | None => raise (KeyError (NStr "rad_death"))
    end
  else ret false.

(** [G.nodes[name]["nx_LIF"].u.get()] *)
Definition read_u (G : DiGraph) (name : string) : py Q :=
  let* attrs := node_lookup G (NStr name) in
  match nx_LIF attrs with
  | Some neuron => ret (u_get neuron)
  | None => raise (KeyError (NStr "nx_LIF"))
  end.

Definition get_nx_LIF_count_without_redundancy
    (input_graph nx_SNN_G : DiGraph) (m_val : Z) : py (gmap string Q) :=
  py_for (seq 0 (len input_graph))
    (λ node_counts node_index,
       let* x := read_u nx_SNN_G (counter_name node_index m_val) in
       ret (<[counter_name node_index m_val := x]> node_counts))
    ∅.

Definition get_nx_LIF_count_with_redundancy
    (input_graph adapted_nx_snn_graph : DiGraph) (m_val : Z)
    : py (gmap string Q) :=
  py_for (seq 0 (len input_graph))
    (λ node_counts node_index,
       let* died :=
         counter_neuron_died adapted_nx_snn_graph
           (counter_name node_index m_val) in
       let prefix := if died then "red_" else "" in
       let* x :=
         read_u adapted_nx_snn_graph
           (prefix +:+ counter_name node_index m_val) in
       ret (<[counter_name node_index m_val := x]> node_counts))
    ∅.

(** [alipour_counter_marks == snn_counter_marks] on two dictionaries of
    numbers: the sizes agree and every key of the left one is a key of the
    right one with an equal number. *)
Definition dict_eq (a b : gmap string Q) : bool :=
  bool_decide (size a = size b) &&
  forallb (λ '(k, x),
             match b !! k with
             | Some y => Qeq_bool x y
             | None => false
             end)
          (map_to_list a).

(** A value of the dictionary [get_snn_results] returns: the count of a
    counter neuron, or the boolean stored under ["passed"]. *)
Inductive ResultValue :=
  | RCount (q : Q)
  | RBool (b : bool).

Definition get_snn_results (alipour_counter_marks : gmap string Q)
    (input_graph : DiGraph) (m_val : Z) (redundant : bool)
    (snn_graph : DiGraph) : py (gmap string ResultValue) :=
  let* snn_counter_marks :=
    if negb redundant
    then get_nx_LIF_count_without_redundancy input_graph snn_graph m_val
    else get_nx_LIF_count_with_redundancy input_graph snn_graph m_val in
  if dict_eq alipour_counter_marks snn_counter_marks
  then ret (<["passed" := RBool true]> (RCount <$> snn_counter_marks))
  else ret (<["passed" := RBool false]> (RCount <$> snn_counter_marks)).

(** Reading a local variable that is bound on some paths only. *)
Definition read_local {A} (var : string) (x : option A) : py A :=
  match x with
  | Some a => ret a
  | None => raise (UnboundLocalError var)
  end.

(** ** stage_1_get_input_graphs.py *)

(** The keys of a run configuration the embedded code reads.  The
    [algorithm] and [adaptation] dictionaries are kept as the list of their
    items in insertion order, which is the order a [for] loop visits them
    in; the keys of a dictionary are pairwise different. *)
Record RunConfig := {
  algorithm : list (string * gmap string pyval);
  adaptation : list (option string * pyval);
  seed : pyval
}.

(** Graph objects live in a store and are passed by reference, so that a
    function that changes a graph in place is told apart from one that
    changes a copy. *)
Abbreviation loc := nat (only parsing).
Abbreviation heap := (gmap nat DiGraph) (only parsing).

#[global] Instance GraphAttrs_inhabited : Inhabited GraphAttrs :=
  populate {| alg_props := None; sim_duration := None;
              completed_stages := [] |}.

#[global] Instance DiGraph_inhabited : Inhabited DiGraph :=
  populate {| nodes := ∅; edges := []; graph := inhabitant |}.

(** [copy.deepcopy(g)]: a new object with the same contents. *)
Definition deepcopy (h : heap) (g : loc) : heap * loc :=
  let g' := fresh (dom h) in
  (<[g' := h !!! g]> h, g').

Section Stage1.

(** [specify_mdsa_network_properties(input_graph, m_val, seed)] of
    [src/graph_generation/adaptation/mdsa_snn_algo.py], which returns
    the compiled graph. *)
Variable specify_mdsa_network_properties :
  DiGraph → pyval → pyval → py DiGraph.

(** [implement_adaptation_mechanism(adaptation_graph)] of
    [src/graph_generation/adaptation/redundancy.py], which changes the
    graph it is handed in place. *)
Variable implement_adaptation_mechanism : DiGraph → py DiGraph.

Definition m_val_not_int_msg : string :=
  "Error, m_val setting is not of type int.".

(** The source text is not an f-string: the braces are part of it. *)
Definition algo_not_supported_msg : string :=
  "Error, algo_name:{algo_name} is not (yet) supported.".

(** The body of the loop over [run_config["algorithm"].items()]; its
    state is the local variable [snn_algo_graph], unbound at first. *)
Definition get_snn_algo_graph_body (input_graph : DiGraph)
    (run_config : RunConfig) (snn_algo_graph : option DiGraph)
    (item : string * gmap string pyval) : py (option DiGraph) :=
  let '(algo_name, algo_settings) := item in
  if String.eqb algo_name "MDSA" then
    match algo_settings !! "m_val" with
    | None => raise (KeyError (NStr "m_val"))
    | Some m_val =>
        if isinstance_int m_val then
          let* g :=
            specify_mdsa_network_properties
              input_graph m_val (seed run_config) in
          ret (Some g)
        else raise (Exception m_val_not_int_msg)
    end
  else raise (Exception algo_not_supported_msg).

Definition get_snn_algo_graph (input_graph : DiGraph)
    (run_config : RunConfig) : py DiGraph :=
  let* snn_algo_graph :=
    py_for (algorithm run_config)
      (get_snn_algo_graph_body input_graph run_config) None in
  read_local "snn_algo_graph" snn_algo_graph.

Definition redundancy_level_0_msg : string :=
  "Redundancy level 0 not supported if adaptation is" +:+ " required.".

Definition redundancy_above_1_msg : string :=
  "Error, redundancy level above 1 is currently not" +:+ " supported.".

Definition get_redundant_graph (h : heap) (snn_algo_graph : loc)
    (red_lev : pyval) : py (heap * loc) :=
  if py_eq_int red_lev 0 then
    raise (Exception redundancy_level_0_msg)
  else if py_eq_int red_lev 1 then
    let '(h1, adaptation_graph) := deepcopy h snn_algo_graph in
    let* adapted :=
      implement_adaptation_mechanism (h1 !!! adaptation_graph) in
    ret (<[adaptation_graph := adapted]> h1, adaptation_graph)
  else raise (Exception redundancy_above_1_msg).

Definition no_adaptation_msg : string :=
  "Error, if no adaptation is selected, this method should not" +:+
  " be reached.".

Definition setting_not_float_msg : string :=
  "Error, adaptation_setting=," +:+ "which is not an int.".

Definition adaptation_not_supported_msg : string :=
  "Error, adapatation_name: is not" +:+ " supported.".

(** Every path through the body of the loop returns or raises, so only
    the first item is looked at; with no item the function falls off its
    end and returns [None]. *)
Definition get_adapted_graph (h : heap) (snn_algo_graph : loc)
    (run_config : RunConfig) : py (heap * option loc) :=
  match adaptation run_config with
  | [] => ret (h, None)
  | (adapatation_name, adaptation_setting) :: _ =>
      match adapatation_name with
      | None => raise (Exception no_adaptation_msg)
      | Some name =>
          if String.eqb name "redundancy" then
            if negb (isinstance_float adaptation_setting) then
              raise (Exception setting_not_float_msg)
            else
              let* (h', adaptation_graph) :=
                get_redundant_graph h snn_algo_graph
                  adaptation_setting in
              ret (h', Some adaptation_graph)
          else raise (Exception adaptation_not_supported_msg)
      end
  end.

Definition has_adaptation (run_config : RunConfig) : bool :=
  existsb (λ '(adapatation_name, _),
             match adapatation_name with
             | Some _ => true
             | None => false
             end)
          (adaptation run_config).

End Stage1.

(** ** get_mdsa_results.py: the results of all graphs of a run *)

(** A value of the [stage_2_graphs] dictionary: a graph, or a list of
    graphs (one per timestep). *)
Inductive GraphValue :=
  | VGraph (g : DiGraph)
  | VList (l : list DiGraph).

(** [d[k]] on a dictionary kept as the list of its items. *)
Fixpoint dict_lookup {A} (d : list (string * A)) (k : string) : py A :=
  match d with
  | [] => raise (KeyError (NStr k))
  | (k', a) :: d' => if String.eqb k' k then ret a else dict_lookup d' k
  end.

Section Results.

(** [get_alipour_nodes(input_graph, m_val, alg_props)] of
    [src/process_results/get_alipour_nodes.py]: the counts of the
    reference algorithm. *)
Variable get_alipour_nodes :
  DiGraph → Z → gmap string pyval → py (gmap string Q).

(** The body of the loop over [stage_2_graphs.items()].  Its state is
    the local variable [latest_snn_graph], unbound at first, and the
    [results] dictionary.  [input_graph] is the value of
    [stage_2_graphs["input_graph"]], which the loop does not change. *)
Definition get_mdsa_snn_results_body
    (alipour_counter_marks : gmap string Q) (input_graph : DiGraph)
    (m_val : Z)
    (st : option DiGraph * gmap string (gmap string ResultValue))
    (item : string * GraphValue)
    : py (option DiGraph * gmap string (gmap string ResultValue)) :=
  let '(latest_snn_graph, results) := st in
  let '(graph_name, graph) := item in
  let* latest_snn_graph :=
    match graph with
    | VList l =>
        match last l with
        | Some g => ret (Some g)
        | None => raise (IndexError "list index out of range")
        end
    | VGraph _ => ret latest_snn_graph
    end in
  let readout (key : string) (redundant : bool) :=
    let* snn_graph := read_local "latest_snn_graph" latest_snn_graph in
    let* r :=
      get_snn_results alipour_counter_marks input_graph m_val
        redundant snn_graph in
    ret (latest_snn_graph, <[key := r]> results) in
  if String.eqb graph_name "snn_algo_graph" then
    readout "snn_algo_result" false
  else if String.eqb graph_name "adapted_snn_graph" then
    readout "adapted_snn_algo_result" true
  else if String.eqb graph_name "rad_snn_algo_graph" then
    readout "rad_snn_algo_graph" false
  else if String.eqb graph_name "rad_adapted_snn_graph" then
    readout "rad_adapted_snn_graph" true
  else ret (latest_snn_graph, results).

Definition get_mdsa_snn_results (m_val : Z)
    (stage_2_graphs : list (string * GraphValue))
    : py (gmap string (gmap string ResultValue)) :=
  let* input_graph_value := dict_lookup stage_2_graphs "input_graph" in
  let* input_graph :=
    match input_graph_value with
    | VGraph g => ret g
    | VList _ =>
        raise (AttributeError "'list' object has no attribute 'graph'")
    end in
  let* props :=
    match alg_props (graph input_graph) with
    | Some p => ret p
    | None => raise (KeyError (NStr "alg_props"))
    end in
  let* alipour_counter_marks :=
    get_alipour_nodes input_graph m_val props in
  let* (_, results) :=
    py_for stage_2_graphs
      (get_mdsa_snn_results_body alipour_counter_marks input_graph m_val)
      (None, ∅) in
  ret results.

End Results.

(** ** get_graph.py *)

Definition no_attrs : NodeAttrs :=
  {| color := None; bias := None; du := None; dv := None; vth := None;
     rad_death := None; nx_LIF := None |}.

Definition get_networkx_graph_of_2_neurons : DiGraph :=
  {| nodes :=
       <[NInt 1 := {| color := Some "w"; bias := Some 2%Q;
                      du := Some (5 # 2)%Q; dv := Some 3%Q;
                      vth := Some 10%Q;
                      rad_death := None; nx_LIF := None |}]>
       (<[NInt 0 := {| color := Some "w"; bias := Some 1%Q;
                       du := Some (1 # 2)%Q; dv := Some (1 # 2)%Q;
                       vth := Some 2%Q;
                       rad_death := None; nx_LIF := None |}]> ∅);
     edges := [(NInt 0, NInt 1, {| weight := None |})];
     graph := inhabitant |}.

(** ** stage2_sim.py *)

(** The calls whose order matters: the three structural checks and the
    simulation.  [graph_name] is the key of [stage_1_graphs] under which
    the graph object is stored; the graph is the state of that object when
    the call is made. *)
Inductive event :=
  | EvEdgeWeightCheck (graph_name : string) (G : DiGraph)
      (edge : NodeName * NodeName * EdgeAttrs)
  | EvDuplicateEdgeCheck (graph_name : string) (G : DiGraph)
  | EvVerifySpec (graph_name : string) (G : DiGraph) (t : nat)
  | EvRunSnn (graph_name : string) (G : DiGraph) (duration : nat).

(** A computation that may raise and that records the calls it made up to
    its end or up to the raise. *)
Definition traced (A : Type) : Type := list event * py A.

Definition tret {A} (a : A) : traced A := ([], ret a).

Definition tbind {A B} (m : traced A) (k : A → traced B) : traced B :=
  match m with
  | (tr, inl e) => (tr, inl e)
  | (tr, inr a) => let '(tr', r) := k a in ((tr ++ tr')%list, r)
  end.

Notation "'let+' x := m 'in' k" := (tbind m (λ x, k))
  (at level 10, x pattern, m at level 100, k at level 200).

(** A call that is not recorded. *)
Definition lift {A} (m : py A) : traced A := ([], m).

(** A recorded call. *)
Definition call {A} (ev : event) (m : py A) : traced A := ([ev], m).

Fixpoint traced_for {A S} (l : list A) (body : S → A → traced S) (s : S)
    : traced S :=
  match l with
  | [] => tret s
  | x :: l' => let+ s' := body s x in traced_for l' body s'
  end.

Definition set_sim_duration (G : DiGraph) (d : nat) : DiGraph :=
  {| nodes := nodes G; edges := edges G;
     graph := {| alg_props := alg_props (graph G);
                 sim_duration := Some d;
                 completed_stages := completed_stages (graph G) |} |}.

Section Stage2.

(** The functions of [src/simulation/verify_graph_is_snn.py],
    [src/simulation/run_on_networkx.py] and [src/helper.py] that stage 2
    calls.  A check returns nothing or raises; the others change the
    graph they are handed in place. *)
Variable assert_synaptic_edgeweight_type_is_correct :
  DiGraph → NodeName * NodeName * EdgeAttrs → py unit.
Variable assert_no_duplicate_edges_exist : DiGraph → py unit.
Variable old_graph_to_new_graph_properties : DiGraph → py DiGraph.
Variable verify_networkx_snn_spec : DiGraph → nat → py unit.
Variable add_nx_neurons_to_networkx_graph : DiGraph → nat → py DiGraph.
Variable get_sim_duration : DiGraph → RunConfig → py nat.
Variable run_snn_on_networkx : DiGraph → nat → py DiGraph.
Variable add_stage_completion_to_graph : DiGraph → nat → py DiGraph.

Definition convert_graph_snn_to_nx_snn (graph_name : string)
    (G : DiGraph) : traced DiGraph :=
  let+ _ :=
    traced_for (edges G)
      (λ _ edge,
         call (EvEdgeWeightCheck graph_name G edge)
              (assert_synaptic_edgeweight_type_is_correct G edge))
      tt in
  let+ _ :=
    call (EvDuplicateEdgeCheck graph_name G)
         (assert_no_duplicate_edges_exist G) in
  let+ G1 := lift (old_graph_to_new_graph_properties G) in
  let+ _ :=
    call (EvVerifySpec graph_name G1 0)
         (verify_networkx_snn_spec G1 0) in
  let+ G2 := lift (add_nx_neurons_to_networkx_graph G1 0) in
  tret G2.

(** The body of the loop of [sim_graphs] for one item of
    [stage_1_graphs]; it returns the state the graph object is left
    in. *)
Definition sim_graph (run_config : RunConfig) (graph_name : string)
    (snn_graph : DiGraph) : traced DiGraph :=
  let+ G :=
    if negb (String.eqb graph_name "input_graph") then
      let+ G2 := convert_graph_snn_to_nx_snn graph_name snn_graph in
      let+ d := lift (get_sim_duration G2 run_config) in
      let G3 := set_sim_duration G2 d in
      let+ d' := lift (get_sim_duration G3 run_config) in
      call (EvRunSnn graph_name G3 d') (run_snn_on_networkx G3 d')
    else tret snn_graph in
  lift (add_stage_completion_to_graph G 2).

(** The loop of [sim_graphs] changes the graph objects in place; [done]
    collects the items with the state their graphs are left in. *)
Definition sim_graphs_body (run_config : RunConfig)
    (done : list (string * DiGraph)) (item : string * DiGraph)
    : traced (list (string * DiGraph)) :=
  let '(graph_name, snn_graph) := item in
  let+ G := sim_graph run_config graph_name snn_graph in
  tret (done ++ [(graph_name, G)]).

Definition sim_graphs (stage_1_graphs : list (string * DiGraph))
    (run_config : RunConfig) : traced (list (string * DiGraph)) :=
  traced_for stage_1_graphs (sim_graphs_body run_config) [].

End Stage2.

(** * Vocabulary of the properties *)

Definition some_node_marked (G : DiGraph) : Prop :=
  ∃ n a, nodes G !! n = Some a ∧ is_Some (rad_death a).

Definition some_node_unmarked (G : DiGraph) : Prop :=
  ∃ n a, nodes G !! n = Some a ∧ rad_death a = None.

Definition all_nodes_marked (G : DiGraph) : Prop :=
  ∀ n a, nodes G !! n = Some a → is_Some (rad_death a).

Definition no_node_marked (G : DiGraph) : Prop :=
  ∀ n a, nodes G !! n = Some a → rad_death a = None.

(** What one round of the redundancy aware readout stores for the node
    [node_index]. *)
Definition redundant_read (G : DiGraph) (m_val : Z) (node_index : nat)
    : py Q :=
  let* died := counter_neuron_died G (counter_name node_index m_val) in
  read_u G ((if died then "red_" else "") +:+ counter_name node_index m_val).

(** An adapted and simulated graph: the [rad_death] marking is on every
    node or on none, and every counter neuron of the last iteration and
    its redundant twin are nodes that carry a simulated neuron. *)
Definition adapted_snn_graph (input_graph G : DiGraph) (m_val : Z)
    : Prop :=
  (all_nodes_marked G ∨ no_node_marked G) ∧
  ∀ i, i < len input_graph →
    returned (read_u G (counter_name i m_val)) ∧
    returned (read_u G ("red_" +:+ counter_name i m_val)).

(** Two count dictionaries are the same: they have the same keys and
    under every key numbers of the same value. *)
Definition same_counts (a b : gmap string Q) : Prop :=
  dom a = dom b ∧
  ∀ k x y, a !! k = Some x → b !! k = Some y → (x == y)%Q.

(** The value of a Python number. *)
Definition py_number (v : pyval) : option Q :=
  match v with
  | PyBool b => Some (inject_Z (if b then 1 else 0))
  | PyInt z => Some (inject_Z z)
  | PyFloat q => Some q
  | _ => None
  end.

Definition raises_Exception {A} (m : py A) : Prop :=
  ∃ msg, m = inl (Exception msg).

(** The names of the graphs [get_mdsa_snn_results] reads counts for. *)
Definition snn_graph_names : list string :=
  ["snn_algo_graph"; "adapted_snn_graph"; "rad_snn_algo_graph";
   "rad_adapted_snn_graph"].

Definition is_run (ev : event) : bool :=
  match ev with
  | EvRunSnn _ _ _ => true
  | _ => false
  end.

(** The body of a loop over [range(a, a + n)] that stores the value
    [val i] under the key [key i]. *)
Definition keyed_body (key : nat → string) (val : nat → py Q)
    (counts : gmap string Q) (i : nat) : py (gmap string Q) :=
  let* x := val i in ret (<[key i := x]> counts).

(** A run configuration in which the settings of MDSA, if it is
    requested, hold an [m_val], and for which the compilation returns if
    that [m_val] is an integer. *)
Definition compilable
    (specify_mdsa_network_properties :
       DiGraph → pyval → pyval → py DiGraph)
    (input_graph : DiGraph) (run_config : RunConfig) : Prop :=
  ∀ settings, ("MDSA", settings) ∈ algorithm run_config →
    ∃ m_val, settings !! "m_val" = Some m_val ∧
      (isinstance_int m_val = true →
       returned (specify_mdsa_network_properties input_graph m_val
                   (seed run_config))).

Section StructuralChecks.

Variable assert_synaptic_edgeweight_type_is_correct :
  DiGraph → NodeName * NodeName * EdgeAttrs → py unit.
Variable assert_no_duplicate_edges_exist : DiGraph → py unit.
Variable old_graph_to_new_graph_properties : DiGraph → py DiGraph.
Variable verify_networkx_snn_spec : DiGraph → nat → py unit.
Variable add_nx_neurons_to_networkx_graph : DiGraph → nat → py DiGraph.

(** The graph [G] stored under [graph_name] passed the three checks, the
    calls of which are in the trace [before], and [G2] is the graph with
    the neurons added that came out of them. *)
Definition checked (graph_name : string) (G : DiGraph)
    (before : list event) (G2 : DiGraph) : Prop :=
  (∀ edge, edge ∈ edges G →
     EvEdgeWeightCheck graph_name G edge ∈ before ∧
     assert_synaptic_edgeweight_type_is_correct G edge = inr tt) ∧
  EvDuplicateEdgeCheck graph_name G ∈ before ∧
  assert_no_duplicate_edges_exist G = inr tt ∧
  ∃ G1, old_graph_to_new_graph_properties G = inr G1 ∧
        EvVerifySpec graph_name G1 0 ∈ before ∧
        verify_networkx_snn_spec G1 0 = inr tt ∧
        add_nx_neurons_to_networkx_graph G1 0 = inr G2.

(** The graph [G] fails one of the three checks. *)
Definition fails_a_check (G : DiGraph) : Prop :=
  (∃ edge, edge ∈ edges G ∧
     raised (assert_synaptic_edgeweight_type_is_correct G edge)) ∨
  raised (assert_no_duplicate_edges_exist G) ∨
  (∃ G1, old_graph_to_new_graph_properties G = inr G1 ∧
         raised (verify_networkx_snn_spec G1 0)).

End StructuralChecks.

(** * Instances and example inputs

    The theorems on stage 1, stage 2 and the results hold for every
    behaviour of the functions of the repository that are outside the
    embedded files: they take them as parameters.  To run the embedded
    code on concrete inputs the parameters are instantiated with the
    definitions below. *)

Definition empty_graph : DiGraph :=
  {| nodes := ∅; edges := []; graph := inhabitant |}.

(** A node attribute dictionary that only carries [rad_death] and a
    simulated neuron with current [x]. *)
Definition simulated_node (dead : option bool) (x : Q) : NodeAttrs :=
  {| color := None; bias := None; du := None; dv := None; vth := None;
     rad_death := dead;
     nx_LIF := Some {| u_get := x; v_get := 0; spikes := false |} |}.

Definition graph_of_nodes (l : list (NodeName * NodeAttrs)) : DiGraph :=
  {| nodes := list_to_map l; edges := []; graph := inhabitant |}.

Definition two_marked_nodes : DiGraph :=
  graph_of_nodes
    [(NStr "counter_0_1", simulated_node (Some false) 1);
     (NStr "counter_1_1", simulated_node (Some true) 0)].

Definition three_nodes : DiGraph :=
  graph_of_nodes
    [(NInt 0, no_attrs); (NInt 1, no_attrs); (NInt 2, no_attrs)].

(** The counter neuron of node 2 died; its twin holds the count 7. *)
Definition fallback_graph : DiGraph :=
  graph_of_nodes
    [(NStr "counter_0_3", simulated_node (Some false) 1);
     (NStr "red_counter_0_3", simulated_node (Some false) 1);
     (NStr "counter_1_3", simulated_node (Some false) 2);
     (NStr "red_counter_1_3", simulated_node (Some false) 2);
     (NStr "counter_2_3", simulated_node (Some true) 0);
     (NStr "red_counter_2_3", simulated_node (Some false) 7)].

Definition one_node : DiGraph := graph_of_nodes [(NInt 0, no_attrs)].

Definition fault_free_graph : DiGraph :=
  graph_of_nodes
    [(NStr "counter_0_1", simulated_node None 4);
     (NStr "red_counter_0_1", simulated_node None 9)].

Definition is_counter (n : NodeName) : bool :=
  match n with
  | NStr s => String.prefix "counter_" s
  | NInt _ => false
  end.

Definition red_name (n : NodeName) : NodeName :=
  match n with
  | NStr s => NStr ("red_" +:+ s)
  | NInt z => NInt z
  end.

(** Modelled from the spec: [implement_adaptation_mechanism] of
    [src/graph_generation/adaptation/redundancy.py] is not among the
    embedded files.  Section 4.2: every counter neuron [X], and only
    counter neurons, gets a second neuron [red_X] with the same parameters
    and the same incoming synapses. *)
Definition spec_implement_adaptation_mechanism (G : DiGraph) : py DiGraph :=
  let counters := filter (λ na, is_counter na.1 = true)
                         (map_to_list (nodes G)) in
  let twins := (λ na, (red_name na.1, na.2)) <$> counters in
  let fan_in := filter (λ e, is_counter e.1.2 = true) (edges G) in
  ret {| nodes := nodes G ∪ list_to_map twins;
         edges := (edges G ++
                   ((λ e, (e.1.1, red_name e.1.2, e.2)) <$> fan_in))%list;
         graph := graph G |}.

(** The integer a Python [int] (or [bool]) stands for. *)
Definition int_value (v : pyval) : Z :=
  match v with
  | PyInt z => z
  | PyBool true => 1
  | _ => 0
  end.

(** A compiled neuron that was not simulated yet. *)
Definition static_node : NodeAttrs :=
  {| color := None; bias := Some 0%Q; du := Some 0%Q; dv := Some 0%Q;
     vth := Some 0%Q; rad_death := None; nx_LIF := None |}.

(** Modelled from the spec: [specify_mdsa_network_properties] of
    [src/graph_generation/adaptation/mdsa_snn_algo.py] is not among the
    embedded files.  Section 4.1: one counter neuron per node of the input
    graph and per iteration [0..m_val]; the neuron parameters, which the
    spec leaves open, are set to 0, and the synapses are left out. *)
Definition spec_specify_mdsa_network_properties
    (input_graph : DiGraph) (m_val seed : pyval) : py DiGraph :=
  let neuron := static_node in
  let names :=
    i ← seq 0 (len input_graph);
    m ← seq 0 (S (Z.to_nat (int_value m_val)));
    [NStr (counter_name i (Z.of_nat m))] in
  ret {| nodes := list_to_map ((λ n, (n, neuron)) <$> names);
         edges := [];
         graph := graph input_graph |}.

(** A compiled graph: two counter neurons and a synapse into one of
    them. *)
Definition compiled_graph : DiGraph :=
  {| nodes := list_to_map
       [(NStr "spike_once_0", static_node);
        (NStr "counter_0_1", static_node);
        (NStr "counter_1_1", static_node)];
     edges := [(NStr "spike_once_0", NStr "counter_0_1",
                {| weight := Some (PyInt 1) |})];
     graph := inhabitant |}.

Definition mdsa_run_config : RunConfig :=
  {| algorithm := [("MDSA", {["m_val" := PyInt 1]})];
     adaptation := [(Some "redundancy", PyFloat 1)];
     seed := PyInt 42 |}.

Definition two_algorithms_run_config : RunConfig :=
  {| algorithm := [("MDSA", {["m_val" := PyInt 1]});
                   ("Dijkstra", ∅)];
     adaptation := [];
     seed := PyInt 42 |}.

(** MDSA without an [m_val], and a second algorithm. *)
Definition mdsa_without_m_val_run_config : RunConfig :=
  {| algorithm := [("MDSA", ∅); ("Dijkstra", ∅)];
     adaptation := [];
     seed := PyInt 42 |}.

(** A reference algorithm that marks no node; the theorems hold for every
    reference algorithm. *)
Definition no_alipour_marks (input_graph : DiGraph) (m_val : Z)
    (props : gmap string pyval) : py (gmap string Q) :=
  ret ∅.

Definition one_node_with_props : DiGraph :=
  {| nodes := {[NInt 0 := no_attrs]}; edges := [];
     graph := {| alg_props := Some ∅; sim_duration := None;
                 completed_stages := [1; 2] |} |}.

Definition edge_weight_msg : string :=
  "Error, the synaptic weight of an edge is not a number.".
Definition duplicate_edge_msg : string :=
  "Error, duplicate edges exist.".
Definition neuron_spec_msg : string :=
  "Error, a neuron property is not specified.".

(** Modelled from the spec: [assert_synaptic_edgeweight_type_is_correct]
    of [src/simulation/verify_graph_is_snn.py] is not among the embedded
    files.  Section 3: every edge weight is an integral count or a
    real. *)
Definition spec_assert_synaptic_edgeweight_type_is_correct (G : DiGraph)
    (edge : NodeName * NodeName * EdgeAttrs) : py unit :=
  match weight edge.2 with
  | Some (PyInt _) | Some (PyFloat _) => ret tt
  | _ => raise (Exception edge_weight_msg)
  end.

(** Modelled from the spec: [assert_no_duplicate_edges_exist] of
    [src/simulation/verify_graph_is_snn.py] is not among the embedded
    files.  Section 3: no two edges between the same ordered pair of
    endpoints. *)
Definition spec_assert_no_duplicate_edges_exist (G : DiGraph) : py unit :=
  if bool_decide (NoDup ((λ e, e.1) <$> edges G))
  then ret tt else raise (Exception duplicate_edge_msg).

(** Modelled from the spec: [old_graph_to_new_graph_properties] of
    [src/helper.py] is not among the embedded files and the spec does not
    describe it; the graph is left as it is. *)
Definition spec_old_graph_to_new_graph_properties (G : DiGraph)
    : py DiGraph :=
  ret G.

Definition has_neuron_properties (a : NodeAttrs) : bool :=
  match bias a, du a, dv a, vth a with
  | Some _, Some _, Some _, Some _ => true
  | _, _, _, _ => false
  end.

(** Modelled from the spec: [verify_networkx_snn_spec] of
    [src/simulation/verify_graph_is_snn.py] is not among the embedded
    files.  Section 4.4: every node carries the full required attribute
    set. *)
Definition spec_verify_networkx_snn_spec (G : DiGraph) (t : nat)
    : py unit :=
  if forallb (λ na, has_neuron_properties na.2) (map_to_list (nodes G))
  then ret tt else raise (Exception neuron_spec_msg).

Definition with_nodes (G : DiGraph) (ns : gmap NodeName NodeAttrs)
    : DiGraph :=
  {| nodes := ns; edges := edges G; graph := graph G |}.

Definition with_nx_LIF (a : NodeAttrs) (neuron : nx_LIF_neuron)
    : NodeAttrs :=
  {| color := color a; bias := bias a; du := du a; dv := dv a;
     vth := vth a; rad_death := rad_death a; nx_LIF := Some neuron |}.

(** Modelled from the spec: [add_nx_neurons_to_networkx_graph] of
    [src/simulation/run_on_networkx.py] is not among the embedded files.
    Every node gets a neuron at rest. *)
Definition spec_add_nx_neurons_to_networkx_graph (G : DiGraph) (t : nat)
    : py DiGraph :=
  ret (with_nodes G
         ((λ a, with_nx_LIF a {| u_get := 0; v_get := 0;
                                 spikes := false |}) <$> nodes G)).

(** Modelled from the spec: [get_sim_duration] of [src/helper.py] is not
    among the embedded files and the spec gives no formula for it; the
    two timesteps of the example run are taken. *)
Definition spec_get_sim_duration (G : DiGraph) (run_config : RunConfig)
    : py nat :=
  ret 2.

Definition Q_of_option (q : option Q) : Q := default 0%Q q.

(** The current a synapse delivers at a timestep. *)
Definition synapse_current (G : DiGraph)
    (edge : NodeName * NodeName * EdgeAttrs) : Q :=
  match nodes G !! edge.1.1 with
  | Some a =>
      match nx_LIF a with
      | Some neuron =>
          if spikes neuron
          then Q_of_option (weight edge.2 ≫= py_number)
          else 0%Q
      | None => 0%Q
      end
  | None => 0%Q
  end.

Definition incoming_current (G : DiGraph) (n : NodeName) : Q :=
  foldr Qplus 0%Q
    (synapse_current G <$>
       filter (λ e, e.1.2 = n) (edges G)).

(** Modelled from the spec: one timestep of section 4.5.  A dead neuron
    is frozen and does not spike; a live one leaks, integrates the spikes
    of the previous timestep and its bias, and fires and resets its
    voltage to 0 when the voltage reaches the threshold. *)
Definition spec_lif_step (G : DiGraph) (n : NodeName) (a : NodeAttrs)
    : NodeAttrs :=
  match nx_LIF a with
  | None => a
  | Some neuron =>
      if bool_decide (rad_death a = Some true) then
        with_nx_LIF a {| u_get := u_get neuron; v_get := v_get neuron;
                         spikes := false |}
      else
        let u' := Qred (u_get neuron * (1 - Q_of_option (du a))
                        + incoming_current G n + Q_of_option (bias a))%Q in
        let v' := Qred (v_get neuron * (1 - Q_of_option (dv a)) + u')%Q in
        if Qle_bool (Q_of_option (vth a)) v'
        then with_nx_LIF a {| u_get := u'; v_get := 0; spikes := true |}
        else with_nx_LIF a {| u_get := u'; v_get := v'; spikes := false |}
  end.

Definition spec_timestep (G : DiGraph) : DiGraph :=
  with_nodes G (map_imap (λ n a, Some (spec_lif_step G n a)) (nodes G)).

(** Modelled from the spec: [run_snn_on_networkx] of
    [src/simulation/run_on_networkx.py] is not among the embedded files.
    Section 4.5: all neurons are updated together, once per timestep. *)
Definition spec_run_snn_on_networkx (G : DiGraph) (duration : nat)
    : py DiGraph :=
  ret (Nat.iter duration spec_timestep G).

(** Modelled from the spec: [add_stage_completion_to_graph] of
    [src/helper.py] is not among the embedded files.  Section 6: a stage
    appends its index to [completed_stages]. *)
Definition spec_add_stage_completion_to_graph (G : DiGraph) (stage : nat)
    : py DiGraph :=
  ret {| nodes := nodes G; edges := edges G;
         graph := {| alg_props := alg_props (graph G);
                     sim_duration := sim_duration (graph G);
                     completed_stages :=
                       completed_stages (graph G) ++ [stage] |} |}.

(** The two neuron example after two timesteps. *)
Definition simulated_2_neurons : DiGraph :=
  match
    let* G := spec_add_nx_neurons_to_networkx_graph
                get_networkx_graph_of_2_neurons 0 in
    spec_run_snn_on_networkx G 2
  with
  | inr G => G
  | inl _ => get_networkx_graph_of_2_neurons
  end.

(** A compiled graph in which the neuron [counter_1_1] has no [vth]. *)
Definition graph_missing_vth : DiGraph :=
  {| nodes := list_to_map
       [(NStr "spike_once_0", static_node);
        (NStr "counter_0_1", static_node);
        (NStr "counter_1_1",
         {| color := None; bias := Some 0%Q; du := Some 0%Q;
            dv := Some 0%Q; vth := None; rad_death := None;
            nx_LIF := None |})];
     edges := [(NStr "spike_once_0", NStr "counter_0_1",
                {| weight := Some (PyInt 1) |})];
     graph := inhabitant |}.

(** * Further embedded code *)

(** ** get_mdsa_results.py: the keys of the results *)

(** The key of [results] under which the counts of a graph are stored. *)
Definition result_key (graph_name : string) : string :=
  if String.eqb graph_name "snn_algo_graph" then "snn_algo_result"
  else if String.eqb graph_name "adapted_snn_graph"
       then "adapted_snn_algo_result"
  else graph_name.

(** Whether the counts of a graph are read with the redundancy fallback. *)
Definition read_with_redundancy (graph_name : string) : bool :=
  String.eqb graph_name "adapted_snn_graph" ||
  String.eqb graph_name "rad_adapted_snn_graph".

(** ** stage_1_get_input_graphs.py: the graphs of a run *)

(** [l[i]] on a list: a negative index counts from the end. *)
Definition py_list_index {A} (l : list A) (i : Z) : py A :=
  let n := Z.of_nat (length l) in
  let j := if (i <? 0)%Z then (n + i)%Z else i in
  if (j <? 0)%Z then raise (IndexError "list index out of range")
  else match l !! Z.to_nat j with
       | Some a => ret a
       | None => raise (IndexError "list index out of range")
       end.

(** The run configuration with the two keys the choice of the input graph
    reads, both integers. *)
Record InputGraphConfig := {
  settings : RunConfig;
  graph_size : Z;
  graph_nr : Z
}.

Definition input_graph_not_found_msg : string :=
  "For input_graph of size:, I found:" +:+
  " graphs, yet expected graph_nr:" +:+
  ". Please lower the max_graphs setting in:" +:+
  "size_and_max_graphs in the experiment configuration.".

Section UsedGraphs.

(** [Used_graphs().get_graphs(size)] of
    [src/graph_generation/Used_graphs.py]: the input graphs of a size. *)
Variable get_graphs : Z → py (list DiGraph).

Definition get_the_input_graphs (run_config : InputGraphConfig)
    : py DiGraph :=
  let* input_graphs := get_graphs (graph_size run_config) in
  if (graph_nr run_config <? Z.of_nat (length input_graphs))%Z then
    py_list_index input_graphs (graph_nr run_config)
  else raise (Exception input_graph_not_found_msg).

Definition get_input_graph (run_config : InputGraphConfig) : py DiGraph :=
  get_the_input_graphs run_config.

End UsedGraphs.

(** ** stage_1_get_input_graphs.py: the graphs of a run as objects *)

(** [get_used_graphs] stores the graph objects that the functions it calls
    return, and hands the object it stored as input graph on to the
    compilation.  Which object a called function returns, a new one or one
    it was handed, is decided by that function; so in this module the
    functions of stage 1 are embedded on references into the store of
    graph objects, and the functions they call outside of the embedded
    files take the store and return it. *)
Module ByReference.

Section UsedGraphs.

(** [Used_graphs().get_graphs(size)]: a list of graph objects. *)
Variable get_graphs : heap → Z → py (heap * list loc).

(** [specify_mdsa_network_properties(input_graph, m_val, seed)]: it is
    handed the input graph object and returns a graph object. *)
Variable specify_mdsa_network_properties :
  heap → loc → pyval → pyval → py (heap * loc).

(** [implement_adaptation_mechanism(adaptation_graph)], which changes the
    graph it is handed in place. *)
Variable implement_adaptation_mechanism : DiGraph → py DiGraph.

Definition get_the_input_graphs (h : heap) (run_config : InputGraphConfig)
    : py (heap * loc) :=
  let* (h1, input_graphs) := get_graphs h (graph_size run_config) in
  if (graph_nr run_config <? Z.of_nat (length input_graphs))%Z then
    let* input_graph :=
      py_list_index input_graphs (graph_nr run_config) in
    ret (h1, input_graph)
  else raise (Exception input_graph_not_found_msg).

Definition get_input_graph (h : heap) (run_config : InputGraphConfig)
    : py (heap * loc) :=
  get_the_input_graphs h run_config.

(** The state of the loop is the store and the local variable
    [snn_algo_graph], unbound at first. *)
Definition get_snn_algo_graph_body (input_graph : loc)
    (run_config : RunConfig) (state : heap * option loc)
    (item : string * gmap string pyval) : py (heap * option loc) :=
  let '(h, snn_algo_graph) := state in
  let '(algo_name, algo_settings) := item in
  if String.eqb algo_name "MDSA" then
    match algo_settings !! "m_val" with
    | None => raise (KeyError (NStr "m_val"))
    | Some m_val =>
        if isinstance_int m_val then
          let* (h', g) :=
            specify_mdsa_network_properties
              h input_graph m_val (seed run_config) in
          ret (h', Some g)
        else raise (Exception m_val_not_int_msg)
    end
  else raise (Exception algo_not_supported_msg).

Definition get_snn_algo_graph (h : heap) (input_graph : loc)
    (run_config : RunConfig) : py (heap * loc) :=
  let* (h', snn_algo_graph) :=
    py_for (algorithm run_config)
      (get_snn_algo_graph_body input_graph run_config) (h, None) in
  let* g := read_local "snn_algo_graph" snn_algo_graph in
  ret (h', g).

(** The values of the returned dictionary are graph objects, or [None]. *)
Definition get_used_graphs (h : heap) (run_config : InputGraphConfig)
    : py (heap * list (string * option loc)) :=
  let* (h1, input_graph) := get_input_graph h run_config in
  let graphs := [("input_graph", Some input_graph)] in
  let* (h2, snn_algo_graph) :=
    get_snn_algo_graph h1 input_graph (settings run_config) in
  let graphs := graphs ++ [("snn_algo_graph", Some snn_algo_graph)] in
  if has_adaptation (settings run_config) then
    let* (h3, adapted_snn_graph) :=
      get_adapted_graph implement_adaptation_mechanism h2
        snn_algo_graph (settings run_config) in
    ret (h3, graphs ++ [("adapted_snn_graph", adapted_snn_graph)])
  else ret (h2, graphs).

End UsedGraphs.

End ByReference.

(** The graphs a list of graph objects holds. *)
Definition contents (h : heap) (refs : list loc) : list DiGraph :=
  (λ g, h !!! g) <$> refs.

(** ** stage2_sim.py: reading a trace *)

(** The key of [stage_1_graphs] an event belongs to. *)
Definition event_name (ev : event) : string :=
  match ev with
  | EvEdgeWeightCheck n _ _ | EvDuplicateEdgeCheck n _
  | EvVerifySpec n _ _ | EvRunSnn n _ _ => n
  end.

(** The keys of the graphs that were simulated, in the order of the
    simulations. *)
Definition run_names (trace : list event) : list string :=
  omap (λ ev, match ev with
              | EvRunSnn n _ _ => Some n
              | _ => None
              end) trace.

(** ** Example inputs *)

(** [rad_death] is on one node and not on the other. *)
Definition partially_marked_graph : DiGraph :=
  graph_of_nodes
    [(NStr "counter_0_1", simulated_node (Some false) 4);
     (NStr "red_counter_0_1", simulated_node None 4)].


(** The graphs of a run after stage 2: one list of graphs per network. *)
Definition simulated_stage_2_graphs : list (string * GraphValue) :=
  [("input_graph", VGraph one_node_with_props);
   ("snn_algo_graph", VList [compiled_graph; fault_free_graph]);
   ("adapted_snn_graph", VList [fault_free_graph])].

(** Modelled from the spec: [Used_graphs.get_graphs] of
    [src/graph_generation/Used_graphs.py] is not among the embedded files.
    Section 6: an input graph has the nodes [0 .. N-1]; here a size that
    is supported has two graphs without edges. *)
Definition spec_get_graphs (size : Z) : py (list DiGraph) :=
  if (0 <? size)%Z && (size <? 6)%Z then
    let G := {| nodes := list_to_map
                  ((λ i, (NInt (Z.of_nat i), no_attrs))
                     <$> seq 0 (Z.to_nat size));
                edges := []; graph := inhabitant |} in
    ret [G; G]
  else raise (Exception "Graph size of: is currently not supported.").

(** A new object that holds [G]. *)
Definition alloc (h : heap) (G : DiGraph) : heap * loc :=
  let l := fresh (dom h) in
  (<[l := G]> h, l).

(** Modelled from the spec: [Used_graphs.get_graphs] as above; the graphs
    of its list are objects that it makes. *)
Definition spec_get_graph_objects (h : heap) (size : Z)
    : py (heap * list loc) :=
  let* graphs := spec_get_graphs size in
  ret (foldl (λ '(h', refs) G,
                let '(h'', g) := alloc h' G in (h'', refs ++ [g]))
             (h, []) graphs).

(** Modelled from the spec: [specify_mdsa_network_properties] as above.
    Section 4.1, side effects: none beyond returning a new graph; the
    input graph is not mutated. *)
Definition spec_specify_mdsa_network_object (h : heap)
    (input_graph : loc) (m_val seed : pyval) : py (heap * loc) :=
  let* G :=
    spec_specify_mdsa_network_properties (h !!! input_graph) m_val seed in
  ret (alloc h G).

Definition input_graph_config (nr : Z) : InputGraphConfig :=
  {| settings := mdsa_run_config; graph_size := 3; graph_nr := nr |}.

Definition no_adaptation_run_config : RunConfig :=
  {| algorithm := [("MDSA", {["m_val" := PyInt 1]})];
     adaptation := [(None, PyNone)];
     seed := PyInt 42 |}.

(** Stage 2 with the checks and the engine modelled from the spec. *)
Definition spec_convert_graph_snn_to_nx_snn
    : string → DiGraph → traced DiGraph :=
  convert_graph_snn_to_nx_snn
    spec_assert_synaptic_edgeweight_type_is_correct
    spec_assert_no_duplicate_edges_exist
    spec_old_graph_to_new_graph_properties
    spec_verify_networkx_snn_spec
    spec_add_nx_neurons_to_networkx_graph.

Definition spec_sim_graphs
    : list (string * DiGraph) → RunConfig
      → traced (list (string * DiGraph)) :=
  sim_graphs
    spec_assert_synaptic_edgeweight_type_is_correct
    spec_assert_no_duplicate_edges_exist
    spec_old_graph_to_new_graph_properties
    spec_verify_networkx_snn_spec
    spec_add_nx_neurons_to_networkx_graph
    spec_get_sim_duration spec_run_snn_on_networkx
    spec_add_stage_completion_to_graph.

Definition stage_1_graphs_with_fault : list (string * DiGraph) :=
  [("input_graph", one_node_with_props);
   ("snn_algo_graph", graph_missing_vth)].

Definition stage_1_graphs_example : list (string * DiGraph) :=
  [("input_graph", one_node_with_props);
   ("snn_algo_graph", compiled_graph);
   ("adapted_snn_graph", compiled_graph)].

(** * Properties *)

(** ** Control flow *)

Lemma bind_inr {A B} (m : py A) (k : A → py B) (b : B) :
  bind m k = inr b ↔ ∃ a, m = inr a ∧ k a = inr b.
Proof.
  destruct m as [e|a]; simpl; split.
  - discriminate.
  - intros (a & Ha & _). discriminate.
  - eauto.
  - intros (a' & [= ->] & Hk). exact Hk.
Qed.

(** ** The rad_death marking of a graph *)

Lemma has_rad_death_key_true a :
  has_rad_death_key a = true ↔ is_Some (rad_death a).
Proof.
  unfold has_rad_death_key. destruct (rad_death a); split; eauto.
  - discriminate.
  - intros [? ?]. discriminate.
Qed.

Lemma has_rad_death_key_false a :
  has_rad_death_key a = false ↔ rad_death a = None.
Proof. unfold has_rad_death_key. by destruct (rad_death a). Qed.

(** The first loop: the flag ends up set iff it was set or some node of
    the list has the key. *)
Lemma rad_death_found_spec (l : list (NodeName * NodeAttrs)) (b : bool) :
  foldl (λ found '(nodename, attrs),
           if has_rad_death_key attrs then true else found) b l = true
  ↔ b = true ∨ ∃ n a, (n, a) ∈ l ∧ has_rad_death_key a = true.
Proof.
  revert b. induction l as [|[n a] l IH]; intros b; simpl.
  - split; [by left|]. intros [?|(? & ? & H & _)]; [done|].
    by apply elem_of_nil in H.
  - rewrite IH. split.
    + intros [H|(n' & a' & Hin & Ha')].
      * destruct (has_rad_death_key a) eqn:Ha; [|by left].
        right. exists n, a. split; [left|done].
      * right. exists n', a'. split; [by right|done].
    + intros [->|(n' & a' & Hin & Ha')].
      * left. by destruct (has_rad_death_key a).
      * apply elem_of_cons in Hin as [[= -> ->]|Hin].
        -- left. by rewrite Ha'.
        -- right. eauto.
Qed.

(** The second loop returns iff every node of the list has the key, and
    otherwise raises the one exception of its body. *)
Lemma rad_death_check_spec (l : list (NodeName * NodeAttrs)) :
  py_for l
    (λ _ '(nodename, attrs),
       if negb (has_rad_death_key attrs)
       then raise (Exception rad_death_not_set_msg)
       else ret tt) tt
  = if forallb (λ na, has_rad_death_key na.2) l
    then inr tt else inl (Exception rad_death_not_set_msg).
Proof.
  induction l as [|[n a] l IH]; simpl; [done|].
  destruct (has_rad_death_key a); simpl; [exact IH|done].
Qed.

Lemma graph_has_dead_neurons_cases G :
  graph_has_dead_neurons G =
    if bool_decide (some_node_marked G) then
      if bool_decide (some_node_unmarked G)
      then inl (Exception rad_death_not_set_msg)
      else inr true
    else inr false.
Proof.
  unfold graph_has_dead_neurons.
  set (l := map_to_list (nodes G)).
  assert (Hfound :
    foldl (λ found '(nodename, attrs),
             if has_rad_death_key attrs then true else found) false l
    = true ↔ some_node_marked G).
  { rewrite rad_death_found_spec. unfold some_node_marked. split.
    - intros [?|(n & a & Hin & Ha)]; [done|].
      exists n, a. split; [by apply elem_of_map_to_list|].
      by apply has_rad_death_key_true.
    - intros (n & a & Hn & Ha). right. exists n, a.
      split; [by apply elem_of_map_to_list|].
      by apply has_rad_death_key_true. }
  assert (Hall :
    forallb (λ na, has_rad_death_key na.2) l = true
    ↔ ¬ some_node_unmarked G).
  { rewrite forallb_forall. unfold some_node_unmarked. split.
    - intros H (n & a & Hn & Ha).
      assert (Hin : In (n, a) l)
        by (by apply list_elem_of_In, elem_of_map_to_list).
      apply H in Hin. simpl in Hin.
      apply has_rad_death_key_false in Ha. congruence.
    - intros H [n a] Hin. simpl.
      apply list_elem_of_In, elem_of_map_to_list in Hin.
      destruct (has_rad_death_key a) eqn:Ha; [done|].
      destruct H. exists n, a. split; [done|].
      by apply has_rad_death_key_false. }
  destruct (foldl _ false l) eqn:Hf.
  - rewrite bool_decide_eq_true_2 by (by apply Hfound).
    rewrite rad_death_check_spec.
    destruct (forallb _ l) eqn:Hfa; simpl.
    + rewrite bool_decide_eq_false_2; [done|]. by apply Hall.
    + rewrite bool_decide_eq_true_2; [done|].
      destruct (decide (some_node_unmarked G)) as [|Hn]; [done|].
      apply Hall in Hn. congruence.
  - rewrite bool_decide_eq_false_2; [done|].
    intros H. apply Hfound in H. congruence.
Qed.

Lemma graph_has_dead_neurons_all_marked (G : DiGraph) :
  nodes G ≠ ∅ → all_nodes_marked G → graph_has_dead_neurons G = inr true.
Proof.
  intros Hne Hall. rewrite graph_has_dead_neurons_cases.
  destruct (map_choose _ Hne) as (n & a & Hn).
  rewrite bool_decide_eq_true_2 by (exists n, a; eauto).
  rewrite bool_decide_eq_false_2; [done|].
  intros (n' & a' & Hn' & Ha'). apply Hall in Hn' as [? ?]. congruence.
Qed.

Lemma graph_has_dead_neurons_unmarked (G : DiGraph) :
  no_node_marked G → graph_has_dead_neurons G = inr false.
Proof.
  intros Hnone. rewrite graph_has_dead_neurons_cases.
  rewrite bool_decide_eq_false_2; [done|].
  intros (n & a & Hn & [b Hb]). apply Hnone in Hn. congruence.
Qed.

(** C2: [graph_has_dead_neurons] raises iff [rad_death] is present on at
    least one node and absent from at least one other node, and what it
    raises then is the exception of its second loop.  It returns [True]
    iff [rad_death] is present on every node, that is, the marking was
    made (some node carries it) and is complete (no node lacks it); it
    returns [False] iff [rad_death] is absent from every node, which
    includes the graph without nodes. *)
Theorem graph_has_dead_neurons_spec (G : DiGraph) :
  (raised (graph_has_dead_neurons G)
   ↔ some_node_marked G ∧ some_node_unmarked G) ∧
  (raised (graph_has_dead_neurons G) →
   graph_has_dead_neurons G = inl (Exception rad_death_not_set_msg)) ∧
  (graph_has_dead_neurons G = inr true
   ↔ some_node_marked G ∧ ¬ some_node_unmarked G) ∧
  (graph_has_dead_neurons G = inr false ↔ no_node_marked G).
Proof.
  assert (Hnone : no_node_marked G ↔ ¬ some_node_marked G).
  { split.
    - intros Hnone (n & a & Hn & [b Hb]). apply Hnone in Hn. congruence.
    - intros Hno n a Hn. destruct (rad_death a) as [b|] eqn:Hb; [|done].
      destruct Hno. exists n, a. eauto. }
  rewrite graph_has_dead_neurons_cases.
  split; [|split; [|split]].
  - split.
    + intros [e He]. repeat case_bool_decide; done.
    + intros [Hm Hu]. rewrite !bool_decide_eq_true_2 by done. by eexists.
  - intros [e He]. repeat case_bool_decide; done.
  - split.
    + intros H. repeat case_bool_decide; done.
    + intros [Hm Hu]. rewrite bool_decide_eq_true_2 by done.
      by rewrite bool_decide_eq_false_2.
  - rewrite Hnone. split.
    + intros H. repeat case_bool_decide; done.
    + intros Hm. by rewrite bool_decide_eq_false_2.
Qed.

Lemma graph_has_dead_neurons_spec_witness :
  graph_has_dead_neurons two_marked_nodes = inr true ∧
  graph_has_dead_neurons empty_graph = inr false ∧
  graph_has_dead_neurons fault_free_graph = inr false.
Proof.
  split; [|split].
  - apply (graph_has_dead_neurons_spec two_marked_nodes). compute_done.
  - apply (graph_has_dead_neurons_spec empty_graph). compute_done.
  - apply (graph_has_dead_neurons_spec fault_free_graph). compute_done.
Defined.

Lemma py_for_ext {A S} (l : list A) (f g : S → A → py S) (s : S) :
  (∀ s x, x ∈ l → f s x = g s x) → py_for l f s = py_for l g s.
Proof.
  revert s. induction l as [|x l IH]; intros s H; simpl; [done|].
  rewrite H by left. destruct (g s x) as [e|s']; simpl; [done|].
  apply IH. intros s'' y Hy. apply H. by right.
Qed.

Lemma counter_neuron_died_unmarked (G : DiGraph) (name : string) :
  no_node_marked G → counter_neuron_died G name = inr false.
Proof.
  intros H. unfold counter_neuron_died.
  by rewrite (graph_has_dead_neurons_unmarked G H).
Qed.

(** ** Names of counter neurons *)

Lemma string_length_app (s t : string) :
  String.length (s +:+ t) = String.length s + String.length t.
Proof.
  induction s as [|c s IH]; [done|].
  change (S (String.length (s +:+ t)) = S (String.length s + String.length t)).
  by rewrite IH.
Qed.

Lemma string_app_inj_r (s1 s2 t : string) :
  s1 +:+ t = s2 +:+ t → s1 = s2.
Proof.
  revert s2. induction s1 as [|c s1 IH]; intros [|c2 s2] H.
  - done.
  - apply (f_equal String.length) in H.
    rewrite !string_length_app in H. simpl in H. lia.
  - apply (f_equal String.length) in H.
    rewrite !string_length_app in H. simpl in H. lia.
  - change (String c (s1 +:+ t) = String c2 (s2 +:+ t)) in H.
    injection H as -> H. f_equal. by apply IH.
Qed.

(** Different nodes of the input graph have different counter neurons. *)
Lemma counter_name_inj (m_val : Z) (i j : nat) :
  counter_name i m_val = counter_name j m_val → i = j.
Proof.
  unfold counter_name. intros H.
  apply (inj (String.app "counter_")) in H.
  apply string_app_inj_r in H.
  by apply (inj pretty) in H.
Qed.

(** ** Readout loops *)

Section KeyedLoop.

Variable key : nat → string.
Variable val : nat → py Q.
Hypothesis key_inj : ∀ i j, key i = key j → i = j.

Lemma keyed_loop_returns (n a : nat) (c0 c : gmap string Q) :
  py_for (seq a n) (keyed_body key val) c0 = inr c →
  (∀ i, a ≤ i < a + n → ∃ x, val i = inr x ∧ c !! key i = Some x) ∧
  (∀ k, (∀ i, a ≤ i < a + n → k ≠ key i) → c !! k = c0 !! k).
Proof.
  revert a c0. induction n as [|n IH]; intros a c0; simpl.
  - intros [= ->]. split; [intros; lia|done].
  - unfold keyed_body at 1.
    destruct (val a) as [e|x] eqn:Hx; simpl; [done|].
    intros H. apply IH in H as [Hin Hout]. split.
    + intros i Hi. destruct (decide (i = a)) as [->|Hne].
      * exists x. split; [done|].
        rewrite Hout; [apply lookup_insert_eq|].
        intros j Hj Heq. apply key_inj in Heq. lia.
      * apply Hin. lia.
    + intros k Hk. rewrite Hout by (intros; apply Hk; lia).
      apply lookup_insert_ne. intros Heq. by apply (Hk a); [lia|].
Qed.

Lemma keyed_loop_total (n a : nat) (c0 : gmap string Q) :
  (∀ i, a ≤ i < a + n → returned (val i)) →
  returned (py_for (seq a n) (keyed_body key val) c0).
Proof.
  revert a c0. induction n as [|n IH]; intros a c0 H; simpl.
  - by eexists.
  - unfold keyed_body at 1.
    destruct (H a) as [x Hx]; [lia|]. rewrite Hx. simpl.
    apply IH. intros i Hi. apply H. lia.
Qed.

End KeyedLoop.

Lemma get_nx_LIF_count_with_redundancy_keyed
    (input_graph G : DiGraph) (m_val : Z) :
  get_nx_LIF_count_with_redundancy input_graph G m_val =
  py_for (seq 0 (len input_graph))
    (keyed_body (λ i, counter_name i m_val) (redundant_read G m_val)) ∅.
Proof.
  unfold get_nx_LIF_count_with_redundancy. apply py_for_ext.
  intros counts i _. unfold keyed_body, redundant_read.
  by destruct (counter_neuron_died G (counter_name i m_val)).
Qed.

Lemma read_u_inr (G : DiGraph) (name : string) (x : Q) :
  read_u G name = inr x ↔
  ∃ a neuron, nodes G !! NStr name = Some a ∧ nx_LIF a = Some neuron ∧
              u_get neuron = x.
Proof.
  unfold read_u, node_lookup.
  destruct (nodes G !! NStr name) as [a|]; simpl.
  - destruct (nx_LIF a) as [neuron|] eqn:Hn; simpl; split.
    + intros [= <-]. by exists a, neuron.
    + intros (a' & neuron' & [= <-] & Hn' & <-).
      rewrite Hn in Hn'. by injection Hn' as <-.
    + done.
    + intros (a' & neuron' & [= <-] & Hn' & _).
      rewrite Hn in Hn'. discriminate.
  - split; [done|]. intros (? & ? & ? & _). done.
Qed.

Lemma counter_neuron_died_inr (G : DiGraph) (name : string) (d : bool) :
  counter_neuron_died G name = inr d →
  (∃ a, nodes G !! NStr name = Some a ∧ rad_death a = Some d) ∨
  (d = false ∧ no_node_marked G).
Proof.
  unfold counter_neuron_died. rewrite graph_has_dead_neurons_cases.
  destruct (bool_decide (some_node_marked G)) eqn:Hm.
  - destruct (bool_decide (some_node_unmarked G)); simpl; [done|].
    unfold node_lookup.
    destruct (nodes G !! NStr name) as [a|]; simpl; [|done].
    destruct (rad_death a) as [b|] eqn:Hb; simpl; [|done].
    intros [= <-]. left. eauto.
  - simpl. intros [= <-]. right. split; [done|].
    apply bool_decide_eq_false_1 in Hm.
    intros n a Hn. destruct (rad_death a) as [b|] eqn:Hb; [|done].
    destruct Hm. exists n, a. eauto.
Qed.

Lemma redundant_read_total (input_graph G : DiGraph) (m_val : Z) (i : nat) :
  adapted_snn_graph input_graph G m_val → i < len input_graph →
  returned (redundant_read G m_val i).
Proof.
  intros [Hmark Hnodes] Hi. destruct (Hnodes i Hi) as [Hp Hr].
  unfold redundant_read. destruct Hmark as [Hall|Hnone].
  - destruct Hp as [x Hx]. pose proof Hx as Hx'.
    apply read_u_inr in Hx' as (a & neuron & Ha & _).
    destruct (Hall _ _ Ha) as [b Hb].
    assert (Hd : counter_neuron_died G (counter_name i m_val) = inr b).
    { unfold counter_neuron_died.
      rewrite graph_has_dead_neurons_all_marked.
      - unfold node_lookup. rewrite Ha. simpl. by rewrite Hb.
      - intros Hempty. by rewrite Hempty, lookup_empty in Ha.
      - done. }
    rewrite Hd. simpl. destruct b; [done|]. by exists x.
  - by rewrite counter_neuron_died_unmarked.
Qed.

(** C1: on an adapted and simulated graph the redundancy aware readout
    returns, and whenever it returns, the count it reports for the node
    [i] of the input graph is the final current [u] of
    [counter_{i}_{m_val}] when that neuron's [rad_death] is false or
    absent, and the final current [u] of [red_counter_{i}_{m_val}] when
    that neuron's [rad_death] is true. *)
Theorem redundancy_readout_selects_working_counter
    (input_graph G : DiGraph) (m_val : Z) :
  (adapted_snn_graph input_graph G m_val →
   returned (get_nx_LIF_count_with_redundancy input_graph G m_val)) ∧
  (∀ counts,
     get_nx_LIF_count_with_redundancy input_graph G m_val = inr counts →
     ∀ i, i < len input_graph →
       ∃ a, nodes G !! NStr (counter_name i m_val) = Some a ∧
         (rad_death a ≠ Some true →
          ∃ x, read_u G (counter_name i m_val) = inr x ∧
               counts !! counter_name i m_val = Some x) ∧
         (rad_death a = Some true →
          ∃ x, read_u G ("red_" +:+ counter_name i m_val) = inr x ∧
               counts !! counter_name i m_val = Some x)).
Proof.
  rewrite get_nx_LIF_count_with_redundancy_keyed. split.
  - intros Hadapted. apply keyed_loop_total.
    intros i Hi. apply (redundant_read_total input_graph); [done|lia].
  - intros counts Hcounts i Hi.
    apply keyed_loop_returns in Hcounts as [Hin _];
      [|intros ??; apply counter_name_inj].
    destruct (Hin i) as (x & Hx & Hlook); [lia|].
    unfold redundant_read in Hx.
    apply bind_inr in Hx as (died & Hdied & Hread).
    apply counter_neuron_died_inr in Hdied
      as [(a & Ha & Hrd)|[-> Hnone]].
    + exists a. split; [done|]. rewrite Hrd. split.
      * intros Hne. destruct died; [done|]. by exists x.
      * intros [= ->]. by exists x.
    + pose proof Hread as Hread'.
      apply read_u_inr in Hread' as (a & neuron & Ha & _).
      exists a. split; [done|].
      rewrite (Hnone _ _ Ha). split; [|done].
      intros _. by exists x.
Qed.

Lemma redundancy_readout_selects_working_counter_witness :
  ∃ counts,
    get_nx_LIF_count_with_redundancy three_nodes fallback_graph 3
      = inr counts ∧
    counts !! "counter_2_3" = Some 7%Q.
Proof.
  destruct (redundancy_readout_selects_working_counter
              three_nodes fallback_graph 3) as [Htotal Hsel].
  destruct Htotal as [counts Hcounts].
  { split; [left; compute_done|].
    intros i Hi. change (i < 3) in Hi.
    destruct i as [|[|[|i]]]; [| | |lia]; split; by eexists. }
  exists counts. split; [exact Hcounts|].
  destruct (Hsel counts Hcounts 2) as (a & Ha & _ & Hdead);
    [compute_done|].
  vm_compute in Ha. injection Ha as <-.
  destruct Hdead as (x & Hx & Hc); [reflexivity|].
  vm_compute in Hx. injection Hx as <-. exact Hc.
Defined.

(** C10: when no node of the graph carries [rad_death],
    [counter_neuron_died] returns [False] for every name, and the
    redundancy aware readout reads the primary counter neurons and
    nothing else.  It does what [get_nx_LIF_count_without_redundancy]
    does; it returns when every [counter_{i}_{m_val}] is a node with a
    neuron; the count it stores for the node [i] is the current [u] of
    the neuron of the node [counter_{i}_{m_val}]; and no other node is
    looked at, the [red_] nodes among them: a graph without [rad_death]
    that has the same primary counter neurons gives the same result,
    whatever its [red_] nodes hold and whether it has any. *)
Theorem fault_free_readout_reads_primaries
    (input_graph G : DiGraph) (m_val : Z) :
  no_node_marked G →
  let primary i := nodes G !! NStr (counter_name i m_val) in
  (∀ name, counter_neuron_died G name = inr false) ∧
  get_nx_LIF_count_with_redundancy input_graph G m_val =
  get_nx_LIF_count_without_redundancy input_graph G m_val ∧
  ((∀ i, i < len input_graph →
      ∃ a neuron, primary i = Some a ∧ nx_LIF a = Some neuron) →
   returned (get_nx_LIF_count_with_redundancy input_graph G m_val)) ∧
  (∀ counts,
     get_nx_LIF_count_with_redundancy input_graph G m_val = inr counts →
     ∀ i, i < len input_graph →
       ∃ a neuron,
         primary i = Some a ∧ nx_LIF a = Some neuron ∧
         counts !! counter_name i m_val = Some (u_get neuron)) ∧
  (∀ G', no_node_marked G' →
     (∀ i, i < len input_graph →
        nodes G' !! NStr (counter_name i m_val) = primary i) →
     get_nx_LIF_count_with_redundancy input_graph G' m_val =
     get_nx_LIF_count_with_redundancy input_graph G m_val).
Proof.
  intros H primary.
  assert (Hplain : ∀ G0, no_node_marked G0 →
    get_nx_LIF_count_with_redundancy input_graph G0 m_val =
    py_for (seq 0 (len input_graph))
      (keyed_body (λ i, counter_name i m_val)
                  (λ i, read_u G0 (counter_name i m_val))) ∅).
  { intros G0 H0. unfold get_nx_LIF_count_with_redundancy.
    apply py_for_ext. intros counts i _.
    by rewrite counter_neuron_died_unmarked. }
  assert (Hinj : ∀ i j, counter_name i m_val = counter_name j m_val → i = j)
    by (intros ??; apply counter_name_inj).
  split; [intros; by apply counter_neuron_died_unmarked|].
  split; [by rewrite Hplain|].
  split; [|split].
  - intros Hprim. rewrite Hplain by done. apply keyed_loop_total.
    intros i Hi. destruct (Hprim i) as (a & neuron & Ha & Hn); [lia|].
    exists (u_get neuron). apply read_u_inr. by exists a, neuron.
  - intros counts Hc i Hi. rewrite Hplain in Hc by done.
    apply keyed_loop_returns in Hc as [Hin _]; [|done].
    destruct (Hin i) as (x & Hx & Hcount); [lia|].
    apply read_u_inr in Hx as (a & neuron & Ha & Hn & <-).
    by exists a, neuron.
  - intros G' H' Hsame. rewrite !Hplain by done.
    apply py_for_ext. intros counts i Hi. apply elem_of_seq in Hi.
    unfold keyed_body, read_u, node_lookup. rewrite Hsame by lia. done.
Qed.

Lemma fault_free_readout_reads_primaries_witness :
  (∃ counts,
     get_nx_LIF_count_with_redundancy one_node fault_free_graph 1
       = inr counts ∧
     counts !! "counter_0_1" = Some 4%Q) ∧
  get_nx_LIF_count_with_redundancy one_node
    (graph_of_nodes [(NStr "counter_0_1", simulated_node None 4)]) 1
  = get_nx_LIF_count_with_redundancy one_node fault_free_graph 1.
Proof.
  destruct (fault_free_readout_reads_primaries one_node fault_free_graph 1)
    as (_ & _ & Hret & Hval & Hsame); [compute_done|].
  split.
  - destruct Hret as [counts Hc].
    { intros i Hi. change (i < 1) in Hi.
      destruct i as [|i]; [|lia].
      eexists _, _. split; [vm_compute; reflexivity|reflexivity]. }
    exists counts. split; [exact Hc|].
    destruct (Hval counts Hc 0) as (a & neuron & Ha & Hn & Hcount);
      [compute_done|].
    vm_compute in Ha. injection Ha as <-.
    vm_compute in Hn. injection Hn as <-. exact Hcount.
  - apply Hsame; [compute_done|].
    intros i Hi. change (i < 1) in Hi.
    destruct i as [|i]; [|lia]. vm_compute. reflexivity.
Defined.

(** ** The comparison with the reference counts *)

Lemma dict_eq_spec (a b : gmap string Q) :
  dict_eq a b = true ↔ same_counts a b.
Proof.
  unfold dict_eq, same_counts.
  rewrite andb_true_iff, bool_decide_eq_true, forallb_forall. split.
  - intros [Hsize Hall].
    assert (Hval : ∀ k x, a !! k = Some x →
                     ∃ y, b !! k = Some y ∧ (x == y)%Q).
    { intros k x Hk.
      assert (Hin : In (k, x) (map_to_list a))
        by (by apply list_elem_of_In, elem_of_map_to_list).
      apply Hall in Hin. destruct (b !! k) as [y|]; [|done].
      exists y. split; [done|]. by apply Qeq_bool_iff. }
    split.
    + apply set_subseteq_size_eq.
      * intros k [x Hk]%elem_of_dom.
        destruct (Hval _ _ Hk) as (y & Hy & _). apply elem_of_dom. eauto.
      * rewrite !size_dom. lia.
    + intros k x y Hx Hy. destruct (Hval _ _ Hx) as (y' & Hy' & Heq).
      congruence.
  - intros [Hdom Hval]. split.
    + by rewrite <- !(size_dom (D := gset string)), Hdom.
    + intros [k x] Hin.
      apply list_elem_of_In, elem_of_map_to_list in Hin.
      assert (Hk : k ∈ dom b) by (rewrite <- Hdom; apply elem_of_dom; eauto).
      apply elem_of_dom in Hk as [y Hy]. rewrite Hy.
      apply Qeq_bool_iff. eauto.
Qed.

(** C4: [get_snn_results] raises what the readout raises, and when the
    readout returns the counts of the simulated network, it returns these
    counts with an entry ["passed"] that is [True] iff the counts have the
    node set of the reference counts and the same count for every node,
    and [False] otherwise. *)
Theorem get_snn_results_passed_iff_counts_agree
    (alipour_counter_marks : gmap string Q) (input_graph : DiGraph)
    (m_val : Z) (redundant : bool) (snn_graph : DiGraph) :
  let snn_counter_marks :=
    if redundant
    then get_nx_LIF_count_with_redundancy input_graph snn_graph m_val
    else get_nx_LIF_count_without_redundancy input_graph snn_graph m_val in
  let results :=
    get_snn_results alipour_counter_marks input_graph m_val redundant
      snn_graph in
  (∀ e, snn_counter_marks = inl e → results = inl e) ∧
  (∀ counts, snn_counter_marks = inr counts →
     ∃ r, results = inr r ∧
       (r !! "passed" = Some (RBool true)
        ↔ same_counts alipour_counter_marks counts) ∧
       (r !! "passed" = Some (RBool false)
        ↔ ¬ same_counts alipour_counter_marks counts) ∧
       (∀ k, k ≠ "passed" → r !! k = RCount <$> counts !! k)).
Proof.
  intros snn_counter_marks results. subst results.
  unfold get_snn_results.
  replace (if negb redundant
           then get_nx_LIF_count_without_redundancy input_graph snn_graph
                  m_val
           else get_nx_LIF_count_with_redundancy input_graph snn_graph
                  m_val)
    with snn_counter_marks by (by destruct redundant).
  split.
  - intros e ->. done.
  - intros counts ->. simpl.
    pose proof (dict_eq_spec alipour_counter_marks counts) as Hspec.
    destruct (dict_eq alipour_counter_marks counts); eexists;
      (split; [reflexivity|]); rewrite lookup_insert_eq.
    + split; [|split].
      * split; [intros _; by apply Hspec|done].
      * split; [done|]. intros Hne. destruct Hne. by apply Hspec.
      * intros k Hk. by rewrite lookup_insert_ne, lookup_fmap.
    + assert (Hne : ¬ same_counts alipour_counter_marks counts).
      { intros H. apply Hspec in H. done. }
      split; [|split].
      * split; [done|]. intros H. by destruct Hne.
      * done.
      * intros k Hk. by rewrite lookup_insert_ne, lookup_fmap.
Qed.

Lemma get_snn_results_passed_iff_counts_agree_witness :
  ∃ r,
    get_snn_results {["counter_0_1" := 4%Q]} one_node 1 true
      fault_free_graph = inr r ∧
    r !! "passed" = Some (RBool true).
Proof.
  destruct (get_snn_results_passed_iff_counts_agree
              {["counter_0_1" := 4%Q]} one_node 1 true fault_free_graph)
    as [_ H].
  destruct (H {["counter_0_1" := 4%Q]}) as (r & Hr & Hpass & _).
  { vm_compute. reflexivity. }
  exists r. split; [exact Hr|].
  apply Hpass, dict_eq_spec. vm_compute. reflexivity.
Defined.

(** ** The redundancy level *)

Lemma py_eq_int_number (v : pyval) (q : Q) (n : Z) :
  py_number v = Some q →
  py_eq_int v n = true ↔ (q == inject_Z n)%Q.
Proof.
  destruct v as [|b|z|q'|s]; simpl; try done; intros [= <-].
  - rewrite Z.eqb_eq. split; [by intros ->|]. apply inject_Z_injective.
  - rewrite Z.eqb_eq. split; [by intros ->|]. apply inject_Z_injective.
  - apply Qeq_bool_iff.
Qed.

Lemma py_eq_int_number_false (v : pyval) (q : Q) (n : Z) :
  py_number v = Some q → ¬ (q == inject_Z n)%Q → py_eq_int v n = false.
Proof.
  intros Hv Hne. destruct (py_eq_int v n) eqn:H; [|done].
  by apply (py_eq_int_number v q n) in H.
Qed.

Lemma deepcopy_fresh (h : heap) (g : loc) : h !! (deepcopy h g).2 = None.
Proof. apply not_elem_of_dom, is_fresh. Qed.

Section RedundantGraph.

Variable implement_adaptation_mechanism : DiGraph → py DiGraph.

(** At level 1 the mechanism works on a new object that holds the
    contents of the caller's graph; the caller's graph object and every
    other object stay as they were. *)
Lemma get_redundant_graph_level_1 (h : heap) (g : loc) (G : DiGraph)
    (red_lev : pyval) :
  h !! g = Some G →
  py_eq_int red_lev 0 = false → py_eq_int red_lev 1 = true →
  match implement_adaptation_mechanism G with
  | inl e =>
      get_redundant_graph implement_adaptation_mechanism h g red_lev
      = inl e
  | inr adapted =>
      ∃ h' g',
        get_redundant_graph implement_adaptation_mechanism h g red_lev
        = inr (h', g') ∧
        g' ≠ g ∧ h' !! g = Some G ∧ h' !! g' = Some adapted ∧
        ∀ l, l ≠ g' → h' !! l = h !! l
  end.
Proof.
  intros Hg H0 H1. unfold get_redundant_graph. rewrite H0, H1.
  pose proof (deepcopy_fresh h g) as Hfresh.
  unfold deepcopy in *. simpl in Hfresh.
  set (g' := fresh (dom h)) in *.
  rewrite lookup_total_insert_eq, (lookup_total_correct _ _ _ Hg).
  destruct (implement_adaptation_mechanism G) as [e|adapted]; simpl;
    [done|].
  assert (Hne : g' ≠ g) by congruence.
  eexists _, g'. split; [reflexivity|]. split; [done|].
  split; [by rewrite !lookup_insert_ne|].
  split; [by rewrite lookup_insert_eq|].
  intros l Hl. by rewrite !lookup_insert_ne.
Qed.

End RedundantGraph.

(** C3 (as stated, refuted): the level 0.5 lies in (0, 1], and the
    transform raises on it. *)
Lemma get_redundant_graph_rejects_level_one_half :
  (0 < 1 # 2)%Q ∧ (1 # 2 <= 1)%Q ∧
  get_redundant_graph spec_implement_adaptation_mechanism
    {[0 := compiled_graph]} 0 (PyFloat (1 # 2))
  = inl (Exception redundancy_above_1_msg).
Proof. split; [done|]. split; [done|]. reflexivity. Qed.

(** C3 (amended): of the redundancy levels, [get_redundant_graph] accepts
    level 1 and no other: level 0 raises, every level greater than 1
    raises, and so does every other level that is not 1, those between 0
    and 1 among them.  At level 1 the adaptation mechanism is run on a
    deep copy: the result is a new graph object, and the caller's graph
    object is left as it was. *)
Theorem get_redundant_graph_levels
    (implement_adaptation_mechanism : DiGraph → py DiGraph)
    (h : heap) (g : loc) (G : DiGraph) (red_lev : pyval) (q : Q) :
  h !! g = Some G → py_number red_lev = Some q →
  let result :=
    get_redundant_graph implement_adaptation_mechanism h g red_lev in
  ((q == 0)%Q → result = inl (Exception redundancy_level_0_msg)) ∧
  ((1 < q)%Q → result = inl (Exception redundancy_above_1_msg)) ∧
  (¬ (q == 0)%Q → (q < 1)%Q →
   result = inl (Exception redundancy_above_1_msg)) ∧
  ((q == 1)%Q →
   ∀ adapted, implement_adaptation_mechanism G = inr adapted →
     ∃ h' g', result = inr (h', g') ∧
       g' ≠ g ∧ h' !! g = Some G ∧ h' !! g' = Some adapted ∧
       ∀ l, l ≠ g' → h' !! l = h !! l).
Proof.
  intros Hg Hq result. subst result.
  assert (Hother : ¬ (q == 0)%Q → ¬ (q == 1)%Q →
    get_redundant_graph implement_adaptation_mechanism h g red_lev
    = inl (Exception redundancy_above_1_msg)).
  { intros H0 H1. unfold get_redundant_graph.
    by rewrite (py_eq_int_number_false _ q 0 Hq),
               (py_eq_int_number_false _ q 1 Hq). }
  split; [|split; [|split]].
  - intros H0. unfold get_redundant_graph.
    by rewrite (proj2 (py_eq_int_number _ q 0 Hq)).
  - intros Hlt. apply Hother; intros Heq; rewrite Heq in Hlt; done.
  - intros H0 Hlt. apply Hother; [done|].
    intros Heq; rewrite Heq in Hlt. by apply Qlt_irrefl in Hlt.
  - intros H1 adapted Hadapted.
    pose proof (get_redundant_graph_level_1
                  implement_adaptation_mechanism h g G red_lev Hg) as H.
    rewrite Hadapted in H. apply H.
    + apply (py_eq_int_number_false _ q 0 Hq). by rewrite H1.
    + by apply (py_eq_int_number _ q 1 Hq).
Qed.

Lemma get_redundant_graph_levels_witness :
  ∃ h' g',
    get_redundant_graph spec_implement_adaptation_mechanism
      {[0 := compiled_graph]} 0 (PyFloat 1) = inr (h', g') ∧
    g' ≠ 0 ∧ h' !! 0 = Some compiled_graph.
Proof.
  destruct (get_redundant_graph_levels spec_implement_adaptation_mechanism
              {[0 := compiled_graph]} 0 compiled_graph (PyFloat 1) 1
              (lookup_singleton_eq _ _) eq_refl) as (_ & _ & _ & H1).
  destruct (H1 (Qeq_refl 1) _ eq_refl)
    as (h' & g' & Hr & Hne & Horig & _).
  exists h', g'. split; [exact Hr|]. split; [exact Hne|exact Horig].
Defined.

(** ** Loops that are left by an exception *)

Lemma py_for_raised {A S} (l : list A) (body : S → A → py S) (s : S) :
  (∃ x, x ∈ l ∧ ∀ s, raised (body s x)) → raised (py_for l body s).
Proof.
  revert s. induction l as [|y l IH]; intros s (x & Hin & Hx).
  - by apply elem_of_nil in Hin.
  - simpl. destruct (body s y) as [e|s'] eqn:Hy; simpl; [by exists e|].
    apply IH. apply elem_of_cons in Hin as [->|Hin]; [|eauto].
    destruct (Hx s) as [e He]. congruence.
Qed.

Lemma py_for_raises_Exception {A S} (l : list A) (body : S → A → py S)
    (s : S) :
  (∀ x s, x ∈ l → raises_Exception (body s x) ∨ returned (body s x)) →
  (∃ x, x ∈ l ∧ ∀ s, raises_Exception (body s x)) →
  raises_Exception (py_for l body s).
Proof.
  revert s. induction l as [|y l IH]; intros s Hall (x & Hin & Hx).
  - by apply elem_of_nil in Hin.
  - simpl. destruct (Hall y s) as [[msg Hy]|[s' Hy]]; [left| |];
      rewrite Hy; simpl.
    + by exists msg.
    + apply IH.
      * intros z s'' Hz. apply Hall. by right.
      * apply elem_of_cons in Hin as [->|Hin]; [|eauto].
        destruct (Hx s) as [msg Hmsg]. congruence.
Qed.

Lemma bind_raised {A B} (m : py A) (k : A → py B) :
  raised m → raised (bind m k).
Proof. intros [e ->]. by exists e. Qed.

Lemma bind_raises_Exception {A B} (m : py A) (k : A → py B) :
  raises_Exception m → raises_Exception (bind m k).
Proof. intros [e ->]. by exists e. Qed.

(** ** The algorithm setting *)

Section SnnAlgoGraph.

Variable specify_mdsa_network_properties :
  DiGraph → pyval → pyval → py DiGraph.
Variable input_graph : DiGraph.
Variable run_config : RunConfig.

Local Abbreviation body :=
  (get_snn_algo_graph_body specify_mdsa_network_properties input_graph
     run_config).

Lemma body_other_name s name settings :
  name ≠ "MDSA" →
  body s (name, settings) = inl (Exception algo_not_supported_msg).
Proof.
  intros Hne. unfold get_snn_algo_graph_body.
  destruct (String.eqb_spec name "MDSA") as [->|_]; done.
Qed.

Lemma body_m_val_not_int s settings m_val :
  settings !! "m_val" = Some m_val → isinstance_int m_val = false →
  body s ("MDSA", settings) = inl (Exception m_val_not_int_msg).
Proof. intros Hm Hi. simpl. by rewrite Hm, Hi. Qed.

(** A dictionary with two keys has a key that is not ["MDSA"]. *)
Lemma other_algorithm_requested :
  NoDup (algorithm run_config).*1 →
  (2 ≤ length (algorithm run_config))%nat →
  ∃ name settings,
    (name, settings) ∈ algorithm run_config ∧ name ≠ "MDSA".
Proof.
  destruct (algorithm run_config) as [|[n1 s1] [|[n2 s2] l]]; simpl;
    [lia|lia|].
  intros Hnd _. apply NoDup_cons in Hnd as [Hnotin _].
  destruct (decide (n1 = "MDSA")) as [->|Hne].
  - exists n2, s2. split; [right; left|].
    intros ->. apply Hnotin. left.
  - exists n1, s1. split; [left|done].
Qed.

Local Abbreviation compilable :=
  (compilable specify_mdsa_network_properties input_graph run_config).

Lemma body_Exception_or_returned s item :
  compilable → item ∈ algorithm run_config →
  raises_Exception (body s item) ∨ returned (body s item).
Proof.
  intros Hc Hin. destruct item as [name settings].
  destruct (decide (name = "MDSA")) as [->|Hne].
  - destruct (Hc _ Hin) as (m_val & Hm & Hret). simpl. rewrite Hm.
    destruct (isinstance_int m_val); [|left; by eexists].
    destruct Hret as [g Hg]; [done|]. rewrite Hg. right. by eexists.
  - left. rewrite body_other_name by done. by eexists.
Qed.

(** C6 (amended): with the pairwise different names of a dictionary,
    [get_snn_algo_graph] raises one of its two exceptions when the
    [m_val] of MDSA is not an integer; it raises when more than one
    algorithm is requested, and when a requested algorithm is not MDSA;
    when MDSA with an integer [m_val] is the single requested algorithm,
    it hands the graph to the compilation and returns the compiled graph.
    What is raised is decided by the first algorithm of the dictionary:
    the unsupported algorithm exception if it is not MDSA; the [KeyError]
    of the lookup if it is MDSA without an [m_val]; the m_val exception
    if it is MDSA with an [m_val] that is not an integer; and with an
    integer [m_val] the error of the compilation if that raises, and the
    unsupported algorithm exception if the compilation returns and more
    algorithms follow.  So more than one algorithm gives one of the two
    exceptions of the function whenever the settings of MDSA hold an
    [m_val] with which the compilation returns. *)
Theorem get_snn_algo_graph_gates :
  let result :=
    get_snn_algo_graph specify_mdsa_network_properties input_graph
      run_config in
  NoDup (algorithm run_config).*1 →
  (∀ settings m_val,
     ("MDSA", settings) ∈ algorithm run_config →
     settings !! "m_val" = Some m_val → isinstance_int m_val = false →
     raises_Exception result) ∧
  ((2 ≤ length (algorithm run_config))%nat →
   raised result ∧ (compilable → raises_Exception result)) ∧
  (∀ name settings,
     (name, settings) ∈ algorithm run_config → name ≠ "MDSA" →
     raised result ∧
     (algorithm run_config = [(name, settings)] →
      result = inl (Exception algo_not_supported_msg))) ∧
  (∀ settings m_val,
     algorithm run_config = [("MDSA", settings)] →
     settings !! "m_val" = Some m_val → isinstance_int m_val = true →
     (∀ e, specify_mdsa_network_properties input_graph m_val
             (seed run_config) = inl e → result = inl e) ∧
     (∀ g, specify_mdsa_network_properties input_graph m_val
             (seed run_config) = inr g → result = inr g)) ∧
  (∀ name settings rest,
     algorithm run_config = (name, settings) :: rest →
     (name ≠ "MDSA" → result = inl (Exception algo_not_supported_msg)) ∧
     (name = "MDSA" → settings !! "m_val" = None →
      result = inl (KeyError (NStr "m_val"))) ∧
     (name = "MDSA" → ∀ m_val, settings !! "m_val" = Some m_val →
        (isinstance_int m_val = false →
         result = inl (Exception m_val_not_int_msg)) ∧
        (isinstance_int m_val = true →
         (∀ e, specify_mdsa_network_properties input_graph m_val
                 (seed run_config) = inl e → result = inl e) ∧
         (∀ g, specify_mdsa_network_properties input_graph m_val
                 (seed run_config) = inr g →
               rest ≠ [] →
               result = inl (Exception algo_not_supported_msg))))).
Proof.
  intros result Hnd. subst result. unfold get_snn_algo_graph.
  assert (Hother : ∀ name settings,
    (name, settings) ∈ algorithm run_config → name ≠ "MDSA" →
    raised (py_for (algorithm run_config) body None)).
  { intros name settings Hin Hne. apply py_for_raised.
    exists (name, settings). split; [done|].
    intros s. rewrite body_other_name by done. by eexists. }
  split; [|split; [|split; [|split]]].
  - intros settings m_val Hin Hm Hi. apply bind_raises_Exception.
    apply py_for_raises_Exception.
    + intros [name settings'] s Hin'. left.
      destruct (decide (name = "MDSA")) as [->|Hne].
      * assert (settings' = settings) as ->.
        { apply list_elem_of_lookup in Hin as [i Hi1].
          apply list_elem_of_lookup in Hin' as [j Hj].
          assert (i = j) as ->; [|congruence].
          eapply NoDup_lookup; [exact Hnd| |];
            rewrite list_lookup_fmap; [by rewrite Hi1|by rewrite Hj]. }
        rewrite (body_m_val_not_int _ _ _ Hm Hi). by eexists.
      * rewrite body_other_name by done. by eexists.
    + exists ("MDSA", settings). split; [done|].
      intros s. rewrite (body_m_val_not_int _ _ _ Hm Hi). by eexists.
  - intros Hlen.
    destruct (other_algorithm_requested Hnd Hlen)
      as (name & settings & Hin & Hne).
    split; [apply bind_raised; eauto|].
    intros Hc. apply bind_raises_Exception, py_for_raises_Exception.
    + intros item s Hitem. by apply body_Exception_or_returned.
    + exists (name, settings). split; [done|].
      intros s. rewrite body_other_name by done. by eexists.
  - intros name settings Hin Hne.
    split; [apply bind_raised; eauto|].
    intros ->. cbn [py_for]. by rewrite body_other_name.
  - intros settings m_val -> Hm Hi. simpl. rewrite Hm, Hi.
    split.
    + by intros e ->.
    + by intros g ->.
  - intros name settings rest Halg. rewrite Halg in Hnd |- *.
    cbn [py_for]. split; [|split].
    + intros Hne. by rewrite body_other_name.
    + intros -> Hm. simpl. by rewrite Hm.
    + intros -> m_val Hm. split.
      * intros Hi. by rewrite (body_m_val_not_int _ _ _ Hm Hi).
      * intros Hi. split.
        -- intros e He. simpl. by rewrite Hm, Hi, He.
        -- intros g Hg Hrest.
           destruct rest as [|[name2 settings2] rest]; [done|].
           assert (Hne : name2 ≠ "MDSA").
           { intros ->. apply NoDup_cons in Hnd as [Hnotin _].
             apply Hnotin. left. }
           assert (Hfirst : body None ("MDSA", settings) = inr (Some g)).
           { simpl. by rewrite Hm, Hi, Hg. }
           rewrite Hfirst. cbn [bind py_for].
           by rewrite body_other_name.
Qed.

End SnnAlgoGraph.

(** C6 (as stated, refuted): two algorithms are requested, and what
    [get_snn_algo_graph] raises is not one of its configuration
    exceptions but the [KeyError] of the lookup of [m_val]. *)
Lemma get_snn_algo_graph_two_algorithms_KeyError :
  NoDup (algorithm mdsa_without_m_val_run_config).*1 ∧
  length (algorithm mdsa_without_m_val_run_config) = 2 ∧
  get_snn_algo_graph spec_specify_mdsa_network_properties three_nodes
    mdsa_without_m_val_run_config = inl (KeyError (NStr "m_val")) ∧
  ¬ raises_Exception
      (get_snn_algo_graph spec_specify_mdsa_network_properties three_nodes
         mdsa_without_m_val_run_config).
Proof.
  split; [compute_done|]. split; [reflexivity|]. split; [reflexivity|].
  intros [msg Hmsg]. discriminate Hmsg.
Qed.

Lemma get_snn_algo_graph_gates_witness :
  returned (get_snn_algo_graph spec_specify_mdsa_network_properties
              three_nodes mdsa_run_config) ∧
  raised (get_snn_algo_graph spec_specify_mdsa_network_properties
            three_nodes two_algorithms_run_config) ∧
  get_snn_algo_graph spec_specify_mdsa_network_properties three_nodes
    two_algorithms_run_config = inl (Exception algo_not_supported_msg).
Proof.
  split; [|split].
  - destruct (get_snn_algo_graph_gates
                spec_specify_mdsa_network_properties three_nodes
                mdsa_run_config) as (_ & _ & _ & Hmdsa & _);
      [compute_done|].
    destruct (Hmdsa {["m_val" := PyInt 1]} (PyInt 1) eq_refl
                (lookup_singleton_eq _ _) eq_refl) as [_ Hg].
    eexists. apply Hg. reflexivity.
  - destruct (get_snn_algo_graph_gates
                spec_specify_mdsa_network_properties three_nodes
                two_algorithms_run_config) as (_ & Htwo & _);
      [compute_done|].
    apply Htwo. simpl. lia.
  - destruct (get_snn_algo_graph_gates
                spec_specify_mdsa_network_properties three_nodes
                two_algorithms_run_config) as (_ & _ & _ & _ & Hfirst);
      [compute_done|].
    destruct (Hfirst "MDSA" {["m_val" := PyInt 1]} [("Dijkstra", ∅)]
                eq_refl) as (_ & _ & Hmdsa).
    destruct (Hmdsa eq_refl (PyInt 1) (lookup_singleton_eq _ _))
      as [_ Hint].
    destruct (Hint eq_refl) as [_ Hrest].
    eapply Hrest; [reflexivity|done].
Defined.

(** ** The adaptation setting *)

Section AdaptedGraph.

Variable implement_adaptation_mechanism : DiGraph → py DiGraph.
Variable h : heap.
Variable snn_algo_graph : loc.
Variable run_config : RunConfig.

(** C8: when the adaptation mapping has the key ['redundancy'] and its
    value is not a Python float, [get_adapted_graph] raises one of its
    exceptions; the integer 1 as the single setting is rejected with the
    exception of the [isinstance] test; the float 1.0 as the single
    setting is accepted: the adaptation mechanism is run on a deep copy of
    the graph and the copy is returned. *)
Theorem get_adapted_graph_wants_float :
  let result :=
    get_adapted_graph implement_adaptation_mechanism h snn_algo_graph
      run_config in
  (NoDup (adaptation run_config).*1 →
   ∀ setting,
     (Some "redundancy", setting) ∈ adaptation run_config →
     isinstance_float setting = false →
     raises_Exception result) ∧
  (adaptation run_config = [(Some "redundancy", PyInt 1)] →
   result = inl (Exception setting_not_float_msg)) ∧
  (adaptation run_config = [(Some "redundancy", PyFloat 1)] →
   ∀ G adapted,
     h !! snn_algo_graph = Some G →
     implement_adaptation_mechanism G = inr adapted →
     ∃ h' g',
       result = inr (h', Some g') ∧ g' ≠ snn_algo_graph ∧
       h' !! snn_algo_graph = Some G ∧ h' !! g' = Some adapted).
Proof.
  intros result. subst result. unfold get_adapted_graph.
  split; [|split].
  - intros Hnd setting Hin Hfloat.
    destruct (adaptation run_config) as [|[name setting0] rest].
    { by apply elem_of_nil in Hin. }
    destruct name as [name|]; [|by eexists].
    destruct (String.eqb_spec name "redundancy") as [->|Hne];
      [|by eexists].
    assert (setting0 = setting) as ->.
    { apply elem_of_cons in Hin as [[= ->]|Hin]; [done|].
      simpl in Hnd. apply NoDup_cons in Hnd as [Hnotin _].
      destruct Hnotin. apply list_elem_of_fmap.
      by exists (Some "redundancy", setting). }
    rewrite Hfloat. by eexists.
  - intros ->. reflexivity.
  - intros -> G adapted HG Hadapted. simpl.
    pose proof (get_redundant_graph_level_1 implement_adaptation_mechanism
                  h snn_algo_graph G (PyFloat 1) HG eq_refl eq_refl) as H.
    rewrite Hadapted in H.
    destruct H as (h' & g' & -> & Hne & Horig & Hnew & _).
    exists h', g'. done.
Qed.

End AdaptedGraph.

Lemma get_adapted_graph_wants_float_witness :
  raises_Exception
    (get_adapted_graph spec_implement_adaptation_mechanism
       {[0 := compiled_graph]} 0
       {| algorithm := []; seed := PyNone;
          adaptation := [(Some "redundancy", PyInt 1)] |}) ∧
  returned
    (get_adapted_graph spec_implement_adaptation_mechanism
       {[0 := compiled_graph]} 0 mdsa_run_config).
Proof.
  split.
  - destruct (get_adapted_graph_wants_float
                spec_implement_adaptation_mechanism
                {[0 := compiled_graph]} 0
                {| algorithm := []; seed := PyNone;
                   adaptation := [(Some "redundancy", PyInt 1)] |})
      as (Hraise & _).
    apply (Hraise ltac:(compute_done) (PyInt 1)); [left|reflexivity].
  - destruct (get_adapted_graph_wants_float
                spec_implement_adaptation_mechanism
                {[0 := compiled_graph]} 0 mdsa_run_config)
      as (_ & _ & Haccept).
    destruct (Haccept eq_refl compiled_graph _
                (lookup_singleton_eq _ _) eq_refl)
      as (h' & g' & Hr & _).
    by eexists.
Defined.

(** ** The graph the results are read from *)

Section LatestSnnGraph.

Variable get_alipour_nodes :
  DiGraph → Z → gmap string pyval → py (gmap string Q).
Variable alipour_counter_marks : gmap string Q.
Variable input_graph : DiGraph.
Variable m_val : Z.

Local Abbreviation body :=
  (get_mdsa_snn_results_body alipour_counter_marks input_graph m_val).

(** For a value that is no list the body reads [latest_snn_graph] and
    never the graph stored under the name. *)
Lemma body_not_a_list name g :
  name ∈ snn_graph_names →
  ∃ key redundant, ∀ latest results,
    body (latest, results) (name, VGraph g) =
    match latest with
    | None => inl (UnboundLocalError "latest_snn_graph")
    | Some previous =>
        let* r :=
          get_snn_results alipour_counter_marks input_graph m_val
            redundant previous in
        ret (Some previous, <[key := r]> results)
    end.
Proof.
  unfold snn_graph_names. rewrite !elem_of_cons, elem_of_nil.
  intros [->|[->|[->|[->|[]]]]]; eexists _, _; intros [previous|] results;
    reflexivity.
Qed.

(** Whatever [latest_snn_graph] is bound to after some items is the last
    graph of a list among these items. *)
Lemma latest_snn_graph_bound items st previous results :
  py_for items body st = inr (Some previous, results) →
  st.1 = Some previous ∨
  ∃ name l, (name, VList l) ∈ items ∧ last l = Some previous.
Proof.
  revert st. induction items as [|[name value] items IH]; intros st; simpl.
  - intros [= ->]. by left.
  - destruct (body st (name, value)) as [e|st'] eqn:Hbody; simpl; [done|].
    intros H. apply IH in H as [H|(name' & l & Hin & Hl)].
    + destruct st as [latest results0]. simpl in Hbody.
      destruct value as [g|l]; simpl in Hbody.
      * left. simpl.
        repeat (destruct (String.eqb name _); simpl in Hbody;
                [destruct latest as [p|]; simpl in Hbody; [|done];
                 destruct (get_snn_results _ _ _ _ p); simpl in Hbody;
                 [done|]; injection Hbody as <-; exact H|]).
        injection Hbody as <-. exact H.
      * right. exists name, l. split; [left|].
        destruct (last l) as [p|]; simpl in Hbody; [|done].
        repeat (destruct (String.eqb name _); simpl in Hbody;
                [destruct (get_snn_results _ _ _ _ p); simpl in Hbody;
                 [done|]; injection Hbody as <-; exact H|]).
        injection Hbody as <-. exact H.
    + right. exists name', l. split; [by right|done].
Qed.

Lemma body_input_graph st g :
  body st ("input_graph", VGraph g) = inr st.
Proof. by destruct st. Qed.

End LatestSnnGraph.

Section MdsaSnnResults.

Variable get_alipour_nodes :
  DiGraph → Z → gmap string pyval → py (gmap string Q).
Variable m_val : Z.

(** Items that all have the key ["input_graph"], in a dictionary: there
    is at most one. *)
Lemma only_input_graph_before (pre post : list (string * GraphValue)) :
  NoDup (pre ++ post).*1 →
  Forall (λ item, item.1 = "input_graph") pre →
  pre = [] ∨ ∃ value, pre = [("input_graph", value)].
Proof.
  intros Hnd Hpre. destruct pre as [|[n1 v1] [|[n2 v2] pre]].
  - by left.
  - right. exists v1. inversion Hpre as [|?? Hn1 _]. simpl in Hn1.
    by subst.
  - inversion Hpre as [|?? Hn1 Hpre']. inversion Hpre' as [|?? Hn2 _].
    simpl in *. subst. apply NoDup_cons in Hnd as [Hnotin _].
    destruct Hnotin. left.
Qed.

(** C9: [latest_snn_graph] is bound by list values only.  For a graph
    name whose value is no list, the readout fails with an unbound
    variable error or reads the counts from [latest_snn_graph], which then
    is the last graph of a list value that was iterated before, and not
    from the named graph.  When that entry is the first one apart from the
    input graph, [get_mdsa_snn_results] raises, and once the reference
    counts are computed what it raises is the unbound variable error. *)
Theorem get_mdsa_snn_results_reads_latest_snn_graph
    (pre post : list (string * GraphValue)) (name : string) (g : DiGraph) :
  let stage_2_graphs := (pre ++ (name, VGraph g) :: post)%list in
  name ∈ snn_graph_names →
  (∀ alipour_counter_marks input_graph,
     ∃ key redundant, ∀ latest results,
       get_mdsa_snn_results_body alipour_counter_marks input_graph m_val
         (latest, results) (name, VGraph g) =
       match latest with
       | None => inl (UnboundLocalError "latest_snn_graph")
       | Some previous =>
           let* r :=
             get_snn_results alipour_counter_marks input_graph m_val
               redundant previous in
           ret (Some previous, <[key := r]> results)
       end) ∧
  (∀ alipour_counter_marks input_graph previous results,
     py_for pre
       (get_mdsa_snn_results_body alipour_counter_marks input_graph m_val)
       (None, ∅) = inr (Some previous, results) →
     ∃ name' l, (name', VList l) ∈ pre ∧ last l = Some previous) ∧
  (NoDup stage_2_graphs.*1 →
   Forall (λ item, item.1 = "input_graph") pre →
   raised (get_mdsa_snn_results get_alipour_nodes m_val stage_2_graphs) ∧
   ∀ input_graph props alipour_counter_marks,
     dict_lookup stage_2_graphs "input_graph" = inr (VGraph input_graph) →
     alg_props (graph input_graph) = Some props →
     get_alipour_nodes input_graph m_val props
       = inr alipour_counter_marks →
     get_mdsa_snn_results get_alipour_nodes m_val stage_2_graphs
       = inl (UnboundLocalError "latest_snn_graph")).
Proof.
  intros stage_2_graphs Hname. split; [|split].
  - intros. by apply body_not_a_list.
  - intros marks ig previous results H.
    apply latest_snn_graph_bound in H as [H|H]; done.
  - intros Hnd Hpre.
    assert (Hunbound : ∀ input_graph props alipour_counter_marks,
      dict_lookup stage_2_graphs "input_graph" = inr (VGraph input_graph) →
      alg_props (graph input_graph) = Some props →
      get_alipour_nodes input_graph m_val props
        = inr alipour_counter_marks →
      get_mdsa_snn_results get_alipour_nodes m_val stage_2_graphs
        = inl (UnboundLocalError "latest_snn_graph")).
    { intros ig props marks Hig Hprops Hmarks.
      unfold get_mdsa_snn_results. rewrite Hig. simpl.
      rewrite Hprops. simpl. rewrite Hmarks. simpl.
      destruct (body_not_a_list marks ig m_val name g Hname)
        as (key & redundant & Hbody).
      assert (Hloop :
        py_for stage_2_graphs (get_mdsa_snn_results_body marks ig m_val)
          (None, ∅) = inl (UnboundLocalError "latest_snn_graph")).
      { subst stage_2_graphs.
        destruct (only_input_graph_before pre ((name, VGraph g) :: post)
                    Hnd Hpre) as [->|[value ->]].
        - cbn [app py_for]. by rewrite Hbody.
        - simpl in Hig. injection Hig as ->.
          cbn [app py_for]. rewrite body_input_graph.
          cbn [bind]. by rewrite Hbody. }
      by rewrite Hloop. }
    split; [|exact Hunbound].
    unfold get_mdsa_snn_results.
    destruct (dict_lookup stage_2_graphs "input_graph")
      as [e|[ig|l]] eqn:Hig; simpl; [by eexists| |by eexists].
    destruct (alg_props (graph ig)) as [props|] eqn:Hprops; simpl;
      [|by eexists].
    destruct (get_alipour_nodes ig m_val props) as [e|marks] eqn:Hmarks;
      simpl; [by eexists|].
    specialize (Hunbound ig props marks eq_refl Hprops Hmarks).
    unfold get_mdsa_snn_results in Hunbound.
    rewrite Hig in Hunbound. simpl in Hunbound.
    rewrite Hprops in Hunbound. simpl in Hunbound.
    rewrite Hmarks in Hunbound. simpl in Hunbound.
    rewrite Hunbound. by eexists.
Qed.

End MdsaSnnResults.

Lemma get_mdsa_snn_results_reads_latest_snn_graph_witness :
  get_mdsa_snn_results no_alipour_marks 1
    [("input_graph", VGraph one_node_with_props);
     ("snn_algo_graph", VGraph fault_free_graph)]
  = inl (UnboundLocalError "latest_snn_graph").
Proof.
  destruct (get_mdsa_snn_results_reads_latest_snn_graph
              no_alipour_marks 1
              [("input_graph", VGraph one_node_with_props)] []
              "snn_algo_graph" fault_free_graph)
    as (_ & _ & Hfirst); [compute_done|].
  destruct Hfirst as [_ Hunbound].
  - compute_done.
  - by repeat constructor.
  - by apply (Hunbound one_node_with_props ∅ ∅).
Defined.

(** ** The two neuron example graph *)

(** C7 (as stated, refuted): for the two neuron example graph simulated
    for 2 timesteps, [get_snn_results] without redundancy raises a
    [KeyError] for the counter neuron of node 0 and returns no [passed]
    entry; here for [m_val = 1] and the reference counts 0 and 0. *)
Lemma two_neuron_example_has_no_verdict :
  get_snn_results {["counter_0_1" := 0%Q; "counter_1_1" := 0%Q]}
    get_networkx_graph_of_2_neurons 1 false simulated_2_neurons
  = inl (KeyError (NStr "counter_0_1")).
Proof. vm_compute. reflexivity. Qed.

Lemma two_neuron_nodes :
  dom (nodes get_networkx_graph_of_2_neurons) = {[NInt 0; NInt 1]}.
Proof. simpl. rewrite !dom_insert_L, dom_empty_L. set_solver. Qed.

(** C7 (amended): the nodes of the two neuron example graph are named 0
    and 1, so it has no counter neurons: for every graph with these node
    names, whatever the simulation left in its nodes, for every input
    graph with at least one node, every [m_val] and all reference counts,
    [get_snn_results] without redundancy raises a [KeyError] for
    [counter_0_{m_val}] and produces no [passed] entry. *)
Theorem two_neuron_graph_readout_raises
    (alipour_counter_marks : gmap string Q) (input_graph : DiGraph)
    (m_val : Z) (snn_graph : DiGraph) :
  dom (nodes snn_graph) = dom (nodes get_networkx_graph_of_2_neurons) →
  0 < len input_graph →
  get_snn_results alipour_counter_marks input_graph m_val false snn_graph
  = inl (KeyError (NStr (counter_name 0 m_val))).
Proof.
  intros Hdom Hlen. unfold get_snn_results. simpl.
  unfold get_nx_LIF_count_without_redundancy.
  destruct (len input_graph) as [|n]; [lia|]. cbn [seq py_for].
  assert (Hnone : nodes snn_graph !! NStr (counter_name 0 m_val) = None).
  { apply not_elem_of_dom. rewrite Hdom, two_neuron_nodes.
    intros [H|H]%elem_of_union; apply elem_of_singleton in H; done. }
  unfold read_u, node_lookup. by rewrite Hnone.
Qed.

Lemma two_neuron_graph_readout_raises_witness :
  get_snn_results ∅ get_networkx_graph_of_2_neurons 2 false
    simulated_2_neurons
  = inl (KeyError (NStr "counter_0_2")).
Proof.
  apply (two_neuron_graph_readout_raises ∅ get_networkx_graph_of_2_neurons
           2 simulated_2_neurons).
  - compute_done.
  - compute_done.
Defined.

(** ** Stage 2: the checks come before the simulation *)

Lemma app_eq_cons_split {A} (l1 l2 before after : list A) (x : A) :
  l1 ++ l2 = before ++ x :: after →
  (∃ a1, l1 = before ++ x :: a1 ∧ after = a1 ++ l2) ∨
  (∃ b2, before = l1 ++ b2 ∧ l2 = b2 ++ x :: after).
Proof.
  revert before. induction l1 as [|y l1 IH]; intros before H.
  - right. by exists before.
  - destruct before as [|z before]; simpl in H.
    + injection H as -> H. left. by exists l1.
    + injection H as -> H. apply IH in H as [(a1 & -> & ->)|(b2 & -> & ->)].
      * left. by exists a1.
      * right. by exists b2.
Qed.

Lemma tbind_unfold {A B} (m : traced A) (k : A → traced B) :
  tbind m k =
  match m.2 with
  | inl e => (m.1, inl e)
  | inr a => (m.1 ++ (k a).1, (k a).2)
  end.
Proof.
  destruct m as [tr [e|a]]; simpl; [done|]. by destruct (k a).
Qed.

Section Stage2Order.

Variable assert_synaptic_edgeweight_type_is_correct :
  DiGraph → NodeName * NodeName * EdgeAttrs → py unit.
Variable assert_no_duplicate_edges_exist : DiGraph → py unit.
Variable old_graph_to_new_graph_properties : DiGraph → py DiGraph.
Variable verify_networkx_snn_spec : DiGraph → nat → py unit.
Variable add_nx_neurons_to_networkx_graph : DiGraph → nat → py DiGraph.
Variable get_sim_duration : DiGraph → RunConfig → py nat.
Variable run_snn_on_networkx : DiGraph → nat → py DiGraph.
Variable add_stage_completion_to_graph : DiGraph → nat → py DiGraph.
Variable run_config : RunConfig.

Local Abbreviation checked :=
  (checked assert_synaptic_edgeweight_type_is_correct
     assert_no_duplicate_edges_exist old_graph_to_new_graph_properties
     verify_networkx_snn_spec add_nx_neurons_to_networkx_graph).

Local Abbreviation fails_a_check :=
  (fails_a_check assert_synaptic_edgeweight_type_is_correct
     assert_no_duplicate_edges_exist old_graph_to_new_graph_properties
     verify_networkx_snn_spec).

Lemma checked_not_fails graph_name G before G2 :
  checked graph_name G before G2 → ¬ fails_a_check G.
Proof.
  intros (Hedges & _ & Hdup & G1 & Hold & _ & Hverify & _)
         [(edge & Hin & [e He])|[[e He]|(G1' & Hold' & [e He])]].
  - destruct (Hedges _ Hin) as [_ H]. congruence.
  - congruence.
  - congruence.
Qed.

Lemma checked_mono graph_name G before more G2 :
  checked graph_name G before G2 →
  checked graph_name G (more ++ before) G2.
Proof.
  intros (Hedges & Hdup & Hdup' & G1 & Hold & Hv & Hv' & Hadd).
  split; [|split; [|split; [done|]]].
  - intros edge Hin. destruct (Hedges _ Hin). split; [|done].
    apply elem_of_app. by right.
  - apply elem_of_app. by right.
  - exists G1. repeat split; try done. apply elem_of_app. by right.
Qed.

(** The loop over the edges: it records checks only; when it returns,
    every edge was checked and passed; when the check of an edge raises,
    it raises. *)
Lemma edge_checks_spec graph_name G (l : list _) :
  let m :=
    traced_for l
      (λ _ edge,
         call (EvEdgeWeightCheck graph_name G edge)
              (assert_synaptic_edgeweight_type_is_correct G edge))
      tt in
  Forall (λ ev, is_run ev = false) m.1 ∧
  (m.2 = inr tt →
   ∀ edge, edge ∈ l →
     EvEdgeWeightCheck graph_name G edge ∈ m.1 ∧
     assert_synaptic_edgeweight_type_is_correct G edge = inr tt) ∧
  ((∃ edge, edge ∈ l ∧
      raised (assert_synaptic_edgeweight_type_is_correct G edge)) →
   raised m.2).
Proof.
  induction l as [|x l IH]; simpl.
  - split; [constructor|]. split.
    + intros _ edge Hin. by apply elem_of_nil in Hin.
    + intros (edge & Hin & _). by apply elem_of_nil in Hin.
  - destruct IH as (IHrun & IHok & IHfail).
    unfold call at 1.
    destruct (assert_synaptic_edgeweight_type_is_correct G x)
      as [e|[]] eqn:Hx; simpl.
    + split; [by repeat constructor|]. split; [done|].
      intros _. by exists e.
    + destruct (traced_for l _ tt) as [tr res] eqn:Hloop. simpl in *.
      split; [by constructor|]. split.
      * intros Hres edge Hin.
        apply elem_of_cons in Hin as [->|Hin].
        -- split; [left|done].
        -- destruct (IHok Hres _ Hin). split; [by right|done].
      * intros (edge & Hin & Hraise). apply IHfail.
        apply elem_of_cons in Hin as [->|Hin]; [|eauto].
        destruct Hraise as [e He]. congruence.
Qed.

Local Abbreviation convert :=
  (convert_graph_snn_to_nx_snn
     assert_synaptic_edgeweight_type_is_correct
     assert_no_duplicate_edges_exist old_graph_to_new_graph_properties
     verify_networkx_snn_spec add_nx_neurons_to_networkx_graph).

Local Abbreviation sim_one :=
  (sim_graph
     assert_synaptic_edgeweight_type_is_correct
     assert_no_duplicate_edges_exist old_graph_to_new_graph_properties
     verify_networkx_snn_spec add_nx_neurons_to_networkx_graph
     get_sim_duration run_snn_on_networkx add_stage_completion_to_graph
     run_config).

(** The conversion records no simulation; when it returns, the graph
    passed the checks; when the graph fails a check, it raises. *)
Lemma convert_spec graph_name G :
  Forall (λ ev, is_run ev = false) (convert graph_name G).1 ∧
  (∀ G2, (convert graph_name G).2 = inr G2 →
         checked graph_name G (convert graph_name G).1 G2) ∧
  (fails_a_check G → raised (convert graph_name G).2).
Proof.
  unfold convert_graph_snn_to_nx_snn.
  destruct (edge_checks_spec graph_name G (edges G))
    as (Hrun & Hok & Hfail).
  cbv zeta in Hrun, Hok, Hfail.
  destruct (traced_for (edges G) _ tt) as [tr0 [e|[]]]; simpl in *.
  { split; [done|]. split; [done|]. intros _. by exists e. }
  destruct (assert_no_duplicate_edges_exist G) as [e|[]] eqn:Hdup.
  { simpl. split; [|split; [done|intros _; by exists e]].
    apply Forall_app. split; [done|by repeat constructor]. }
  destruct (old_graph_to_new_graph_properties G) as [e|G1] eqn:Hold.
  { simpl. split; [|split; [done|intros _; by exists e]].
    apply Forall_app. split; [done|by repeat constructor]. }
  destruct (verify_networkx_snn_spec G1 0) as [e|[]] eqn:Hverify.
  { simpl. split; [|split; [done|intros _; by exists e]].
    apply Forall_app. split; [done|by repeat constructor]. }
  assert (Hnofail : ¬ fails_a_check G).
  { intros [Hedge|[[e He]|(G1' & Hold' & [e He])]].
    - destruct (Hfail Hedge) as [e He]. done.
    - congruence.
    - congruence. }
  assert (Hchecked : ∀ G2,
    add_nx_neurons_to_networkx_graph G1 0 = inr G2 →
    checked graph_name G
      (tr0 ++ [EvDuplicateEdgeCheck graph_name G;
               EvVerifySpec graph_name G1 0]) G2).
  { intros G2 Hadd. split; [|split; [|split; [done|]]].
    - intros edge Hin. destruct (Hok eq_refl _ Hin). split; [|done].
      apply elem_of_app. by left.
    - apply elem_of_app. right. left.
    - exists G1. repeat split; try done.
      apply elem_of_app. right. right. left. }
  destruct (add_nx_neurons_to_networkx_graph G1 0) as [e|G2] eqn:Hadd;
    simpl; rewrite ?app_nil_r.
  - split; [|split; [done|intros _; by exists e]].
    apply Forall_app. split; [done|by repeat constructor].
  - split; [|split; [|done]].
    + apply Forall_app. split; [done|by repeat constructor].
    + intros ? [= <-]. by apply Hchecked.
Qed.

Lemma sim_one_input_graph G :
  (sim_one "input_graph" G).1 = [].
Proof.
  unfold sim_graph. simpl. unfold lift.
  by destruct (add_stage_completion_to_graph G 2).
Qed.

(** One round of the loop, for a graph that is not the input graph. *)
Lemma sim_one_spec graph_name G :
  graph_name ≠ "input_graph" →
  (∀ before ev after,
     (sim_one graph_name G).1 = before ++ ev :: after →
     is_run ev = true →
     ∃ G2 d0 d,
       ev = EvRunSnn graph_name (set_sim_duration G2 d0) d ∧
       checked graph_name G before G2) ∧
  (fails_a_check G →
   raised (sim_one graph_name G).2 ∧
   Forall (λ ev, is_run ev = false) (sim_one graph_name G).1).
Proof.
  intros Hne. unfold sim_graph.
  destruct (String.eqb_spec graph_name "input_graph") as [|_]; [done|].
  cbn [negb].
  destruct (convert_spec graph_name G) as (Hrun & Hok & Hfail).
  assert (Hnotin : ∀ before ev after,
    (convert graph_name G).1 = before ++ ev :: after →
    is_run ev = true → False).
  { intros before ev after Heq Hev. rewrite Heq in Hrun.
    apply Forall_app in Hrun as [_ Hrun].
    apply Forall_cons in Hrun as [Hrun _]. congruence. }
  destruct (convert graph_name G) as [trc [e|G2]]; simpl in *.
  { split; [intros; exfalso; eauto|].
    intros _. split; [by exists e|done]. }
  specialize (Hok G2 eq_refl).
  pose proof (checked_not_fails _ _ _ _ Hok) as Hnofail.
  split; [|done].
  destruct (get_sim_duration G2 run_config) as [e|d0]; simpl.
  { rewrite app_nil_r. intros; exfalso; eauto. }
  destruct (get_sim_duration (set_sim_duration G2 d0) run_config)
    as [e|d]; simpl.
  { rewrite !app_nil_r. intros; exfalso; eauto. }
  assert (Hsplit : ∀ before ev after,
    trc ++ [EvRunSnn graph_name (set_sim_duration G2 d0) d]
      = before ++ ev :: after →
    is_run ev = true →
    ∃ G2' d0' d',
      ev = EvRunSnn graph_name (set_sim_duration G2' d0') d' ∧
      checked graph_name G before G2').
  { intros before ev after Heq Hev.
    apply app_eq_cons_split in Heq as [(a1 & -> & _)|(b2 & -> & Hb2)].
    - exfalso. eauto.
    - destruct b2 as [|? [|? ?]]; simpl in Hb2; try done.
      injection Hb2 as <- _. exists G2, d0, d. split; [done|].
      by rewrite app_nil_r. }
  destruct (run_snn_on_networkx (set_sim_duration G2 d0) d) as [e|G4];
    simpl.
  - exact Hsplit.
  - destruct (add_stage_completion_to_graph G4 2); simpl;
      rewrite !app_nil_r; exact Hsplit.
Qed.

Local Abbreviation loop_body :=
  (sim_graphs_body
     assert_synaptic_edgeweight_type_is_correct
     assert_no_duplicate_edges_exist old_graph_to_new_graph_properties
     verify_networkx_snn_spec add_nx_neurons_to_networkx_graph
     get_sim_duration run_snn_on_networkx add_stage_completion_to_graph
     run_config).

Lemma loop_body_unfold done graph_name G :
  loop_body done (graph_name, G) =
  match (sim_one graph_name G).2 with
  | inl e => ((sim_one graph_name G).1, inl e)
  | inr G' => ((sim_one graph_name G).1, inr (done ++ [(graph_name, G')]))
  end.
Proof.
  unfold sim_graphs_body. rewrite tbind_unfold.
  destruct (sim_one graph_name G).2; [done|].
  simpl. by rewrite app_nil_r.
Qed.

(** Every simulation in the trace of the loop is preceded by the checks
    of the graph it runs on, all of them passed; and the loop raises as
    soon as a graph it is to simulate fails a check. *)
Lemma sim_graphs_loop_spec (items done : list (string * DiGraph)) :
  let m := traced_for items loop_body done in
  (∀ before ev after,
     m.1 = before ++ ev :: after → is_run ev = true →
     ∃ graph_name G G2 d0 d,
       (graph_name, G) ∈ items ∧ graph_name ≠ "input_graph" ∧
       ev = EvRunSnn graph_name (set_sim_duration G2 d0) d ∧
       checked graph_name G before G2) ∧
  (∀ graph_name G,
     (graph_name, G) ∈ items → graph_name ≠ "input_graph" →
     fails_a_check G → raised m.2).
Proof.
  revert done. induction items as [|[name G] items IH]; intros done m.
  - subst m. simpl. split.
    + intros [|??] ?? H; discriminate H.
    + intros ?? H. by apply elem_of_nil in H.
  - subst m. cbn [traced_for]. rewrite tbind_unfold, loop_body_unfold.
    assert (Hone : ∀ before ev after,
      (sim_one name G).1 = before ++ ev :: after → is_run ev = true →
      ∃ G2 d0 d,
        name ≠ "input_graph" ∧
        ev = EvRunSnn name (set_sim_duration G2 d0) d ∧
        checked name G before G2).
    { intros before ev after Heq Hev.
      destruct (decide (name = "input_graph")) as [->|Hne].
      - rewrite sim_one_input_graph in Heq. by destruct before.
      - destruct (proj1 (sim_one_spec name G Hne) _ _ _ Heq Hev)
          as (G2 & d0 & d & ? & ?). by exists G2, d0, d. }
    destruct (sim_one name G).2 as [e|G'] eqn:Hres; simpl.
    + split.
      * intros before ev after Heq Hev.
        destruct (Hone _ _ _ Heq Hev) as (G2 & d0 & d & ? & ? & ?).
        exists name, G, G2, d0, d. split; [left|done].
      * intros ?? _ _ _. by exists e.
    + destruct (IH (done ++ [(name, G')])) as [IHrun IHfail].
      cbv zeta in IHrun, IHfail. split.
      * intros before ev after Heq Hev.
        apply app_eq_cons_split in Heq
          as [(a1 & Heq & _)|(b2 & -> & Heq)].
        -- destruct (Hone _ _ _ Heq Hev) as (G2 & d0 & d & ? & ? & ?).
           exists name, G, G2, d0, d. split; [left|done].
        -- destruct (IHrun _ _ _ Heq Hev)
             as (n' & G0 & G2 & d0 & d & Hin & ? & ? & Hchecked).
           exists n', G0, G2, d0, d. split; [by right|].
           split; [done|]. split; [done|]. by apply checked_mono.
      * intros n' G0 Hin Hne Hfail.
        apply elem_of_cons in Hin as [[= -> ->]|Hin]; [|by eapply IHfail].
        destruct (proj2 (sim_one_spec name G Hne) Hfail) as [[e He] _].
        congruence.
Qed.

(** C5: in every run of [sim_graphs], a call of [run_snn_on_networkx]
    is preceded by the calls of the three structural checks on the graph
    it simulates (the type of the weight of every edge, no duplicate
    edges, the neuron properties of every node at [t=0]), and all of them
    passed; when a graph that is to be simulated fails one of the checks,
    [sim_graphs] raises and the simulation is never run on that graph. *)
Theorem sim_graphs_checks_before_simulation
    (stage_1_graphs : list (string * DiGraph)) :
  let m :=
    sim_graphs assert_synaptic_edgeweight_type_is_correct
      assert_no_duplicate_edges_exist old_graph_to_new_graph_properties
      verify_networkx_snn_spec add_nx_neurons_to_networkx_graph
      get_sim_duration run_snn_on_networkx add_stage_completion_to_graph
      stage_1_graphs run_config in
  (∀ before graph_name G3 d after,
     m.1 = before ++ EvRunSnn graph_name G3 d :: after →
     ∃ G G2 d0,
       (graph_name, G) ∈ stage_1_graphs ∧ graph_name ≠ "input_graph" ∧
       G3 = set_sim_duration G2 d0 ∧ checked graph_name G before G2) ∧
  (NoDup stage_1_graphs.*1 →
   ∀ graph_name G,
     (graph_name, G) ∈ stage_1_graphs → graph_name ≠ "input_graph" →
     fails_a_check G →
     raised m.2 ∧ ∀ G3 d, EvRunSnn graph_name G3 d ∉ m.1).
Proof.
  intros m. subst m. unfold sim_graphs.
  destruct (sim_graphs_loop_spec stage_1_graphs []) as [Hrun Hfail].
  cbv zeta in Hrun, Hfail.
  assert (Hgate : ∀ before graph_name G3 d after,
    (traced_for stage_1_graphs loop_body []).1
      = before ++ EvRunSnn graph_name G3 d :: after →
    ∃ G G2 d0,
      (graph_name, G) ∈ stage_1_graphs ∧ graph_name ≠ "input_graph" ∧
      G3 = set_sim_duration G2 d0 ∧ checked graph_name G before G2).
  { intros before graph_name G3 d after Heq.
    destruct (Hrun _ _ _ Heq eq_refl)
      as (n & G & G2 & d0 & d' & Hin & Hne & [= -> -> ->] & Hchecked).
    by exists G, G2, d0. }
  split; [exact Hgate|].
  intros Hnd graph_name G Hin Hne Hfails.
  split; [by eapply Hfail|].
  intros G3 d Hev. apply list_elem_of_split in Hev as (before & after & Heq).
  destruct (Hgate _ _ _ _ _ Heq) as (G' & G2 & d0 & Hin' & _ & _ & Hchecked).
  assert (G' = G) as ->.
  { apply list_elem_of_lookup in Hin as [i Hi].
    apply list_elem_of_lookup in Hin' as [j Hj].
    assert (i = j) as ->; [|congruence].
    eapply NoDup_lookup; [exact Hnd| |];
      rewrite list_lookup_fmap; [by rewrite Hi|by rewrite Hj]. }
  by apply checked_not_fails in Hchecked.
Qed.

End Stage2Order.

Lemma sim_graphs_checks_before_simulation_witness :
  let m :=
    sim_graphs spec_assert_synaptic_edgeweight_type_is_correct
      spec_assert_no_duplicate_edges_exist
      spec_old_graph_to_new_graph_properties
      spec_verify_networkx_snn_spec
      spec_add_nx_neurons_to_networkx_graph
      spec_get_sim_duration spec_run_snn_on_networkx
      spec_add_stage_completion_to_graph
      [("input_graph", one_node_with_props);
       ("snn_algo_graph", graph_missing_vth)]
      mdsa_run_config in
  raised m.2 ∧ ∀ G3 d, EvRunSnn "snn_algo_graph" G3 d ∉ m.1.
Proof.
  apply (sim_graphs_checks_before_simulation
           spec_assert_synaptic_edgeweight_type_is_correct
           spec_assert_no_duplicate_edges_exist
           spec_old_graph_to_new_graph_properties
           spec_verify_networkx_snn_spec
           spec_add_nx_neurons_to_networkx_graph
           spec_get_sim_duration spec_run_snn_on_networkx
           spec_add_stage_completion_to_graph
           mdsa_run_config
           [("input_graph", one_node_with_props);
            ("snn_algo_graph", graph_missing_vth)]) with graph_missing_vth.
  - compute_done.
  - right. left.
  - done.
  - right. right. exists graph_missing_vth. split; [reflexivity|].
    eexists. vm_compute. reflexivity.
Defined.

(** * Further properties *)

(** ** The readout without redundancy *)

Lemma keyed_loop_size (key : nat → string) (val : nat → py Q)
    (n a : nat) (c0 c : gmap string Q) :
  (∀ i j, key i = key j → i = j) →
  (∀ i, a ≤ i < a + n → c0 !! key i = None) →
  py_for (seq a n) (keyed_body key val) c0 = inr c →
  size c = size c0 + n.
Proof.
  intros Hinj. revert a c0. induction n as [|n IH]; intros a c0 Hfresh; simpl.
  - intros [= ->]. lia.
  - unfold keyed_body at 1.
    destruct (val a) as [e|x]; simpl; [done|].
    intros H. apply IH in H.
    + rewrite H, map_size_insert_None by (apply Hfresh; lia). lia.
    + intros i Hi. rewrite lookup_insert_ne; [apply Hfresh; lia|].
      intros Heq. apply Hinj in Heq. lia.
Qed.

Lemma keyed_loop_first_error (key : nat → string) (val : nat → py Q)
    (n a i : nat) (c0 : gmap string Q) (e : exn) :
  a ≤ i < a + n →
  (∀ j, a ≤ j < i → returned (val j)) →
  val i = inl e →
  py_for (seq a n) (keyed_body key val) c0 = inl e.
Proof.
  revert a c0. induction n as [|n IH]; intros a c0 Hi Hbefore He; [lia|].
  simpl. unfold keyed_body at 1.
  destruct (decide (i = a)) as [->|Hne].
  - by rewrite He.
  - destruct (Hbefore a) as [x Hx]; [lia|]. rewrite Hx. simpl.
    apply IH; [lia| |done]. intros j Hj. apply Hbefore. lia.
Qed.

(** X1: the readout without redundancy returns iff every counter neuron
    [counter_{i}_{m_val}] of a node [i] of the input graph is a node with a
    simulated neuron; what it raises otherwise is the error of the first
    counter neuron that cannot be read; and when it returns, the result
    has one entry per node of the input graph, the current of that
    counter neuron, and no other entry. *)
Theorem get_nx_LIF_count_without_redundancy_spec
    (input_graph G : DiGraph) (m_val : Z) :
  let result := get_nx_LIF_count_without_redundancy input_graph G m_val in
  (returned result ↔
   ∀ i, i < len input_graph → returned (read_u G (counter_name i m_val))) ∧
  (∀ i e, i < len input_graph →
     (∀ j, j < i → returned (read_u G (counter_name j m_val))) →
     read_u G (counter_name i m_val) = inl e → result = inl e) ∧
  (∀ counts, result = inr counts →
     size counts = len input_graph ∧
     (∀ i, i < len input_graph →
        ∃ x, read_u G (counter_name i m_val) = inr x ∧
             counts !! counter_name i m_val = Some x) ∧
     (∀ k, is_Some (counts !! k) →
        ∃ i, i < len input_graph ∧ k = counter_name i m_val)).
Proof.
  intros result. subst result.
  unfold get_nx_LIF_count_without_redundancy.
  change (λ (node_counts : gmap string Q) (node_index : nat),
            let* x := read_u G (counter_name node_index m_val) in
            ret (<[counter_name node_index m_val := x]> node_counts))
    with (keyed_body (λ i, counter_name i m_val)
                     (λ i, read_u G (counter_name i m_val))).
  assert (Hinj : ∀ i j, counter_name i m_val = counter_name j m_val → i = j)
    by (intros ??; apply counter_name_inj).
  split; [|split].
  - split.
    + intros [counts Hc] i Hi.
      apply keyed_loop_returns in Hc as [Hin _]; [|done].
      destruct (Hin i) as (x & Hx & _); [lia|]. by exists x.
    + intros H. apply keyed_loop_total. intros i Hi. apply H. lia.
  - intros i e Hi Hbefore He.
    apply (keyed_loop_first_error _ _ _ 0 i); [lia| |done].
    intros j Hj. apply Hbefore. lia.
  - intros counts Hc. split; [|split].
    + apply keyed_loop_size in Hc; [|done|intros; apply lookup_empty].
      by rewrite Hc, map_size_empty.
    + intros i Hi. apply keyed_loop_returns in Hc as [Hin _]; [|done].
      apply Hin. lia.
    + intros k Hk. apply keyed_loop_returns in Hc as [_ Hout]; [|done].
      destruct (decide (Exists (λ i, k = counter_name i m_val)
                          (seq 0 (len input_graph)))) as [Hex|Hnex].
      * apply Exists_exists in Hex as (i & Hi & ->).
        apply elem_of_seq in Hi. exists i. split; [lia|done].
      * rewrite Hout in Hk; [by rewrite lookup_empty in Hk; destruct Hk|].
        intros i Hi ->. apply Hnex, Exists_exists. exists i.
        split; [apply elem_of_seq; lia|done].
Qed.

Lemma get_nx_LIF_count_without_redundancy_spec_witness :
  ∃ counts,
    get_nx_LIF_count_without_redundancy one_node fault_free_graph 1
      = inr counts ∧
    size counts = 1 ∧ counts !! "counter_0_1" = Some 4%Q.
Proof.
  destruct (get_nx_LIF_count_without_redundancy_spec
              one_node fault_free_graph 1) as (Hret & _ & Hcounts).
  destruct (proj2 Hret) as [counts Hc].
  { intros i Hi. change (i < 1) in Hi. destruct i; [|lia]. by eexists. }
  exists counts. split; [exact Hc|].
  destruct (Hcounts counts Hc) as (Hsize & Hin & _).
  split; [exact Hsize|].
  destruct (Hin 0) as (x & Hx & Hlook); [compute_done|].
  vm_compute in Hx. injection Hx as <-. exact Hlook.
Defined.

(** X2: the readout without redundancy only looks at the [nx_LIF] neuron
    of the nodes: two graphs whose nodes carry the same neurons give the
    same result, whatever their [rad_death] marks and other attributes
    are, so a dead counter neuron is read like a live one. *)
Theorem get_nx_LIF_count_without_redundancy_ignores_rad_death
    (input_graph G G' : DiGraph) (m_val : Z) :
  (∀ n, nx_LIF <$> nodes G !! n = nx_LIF <$> nodes G' !! n) →
  get_nx_LIF_count_without_redundancy input_graph G m_val =
  get_nx_LIF_count_without_redundancy input_graph G' m_val.
Proof.
  intros Hsame. unfold get_nx_LIF_count_without_redundancy.
  apply py_for_ext. intros counts i _.
  assert (Hread : read_u G (counter_name i m_val)
                  = read_u G' (counter_name i m_val)); [|by rewrite Hread].
  unfold read_u, node_lookup.
  specialize (Hsame (NStr (counter_name i m_val))).
  destruct (nodes G !! NStr (counter_name i m_val)) as [a|],
           (nodes G' !! NStr (counter_name i m_val)) as [a'|];
    simpl in *; try done.
  by injection Hsame as ->.
Qed.

Lemma get_nx_LIF_count_without_redundancy_ignores_rad_death_witness :
  get_nx_LIF_count_without_redundancy one_node
    (graph_of_nodes [(NStr "counter_0_1", simulated_node (Some true) 4)]) 1
  = get_nx_LIF_count_without_redundancy one_node
      (graph_of_nodes [(NStr "counter_0_1", simulated_node None 4)]) 1.
Proof.
  apply (get_nx_LIF_count_without_redundancy_ignores_rad_death one_node
           (graph_of_nodes
              [(NStr "counter_0_1", simulated_node (Some true) 4)])
           (graph_of_nodes
              [(NStr "counter_0_1", simulated_node None 4)]) 1).
  intros n. unfold graph_of_nodes. simpl.
  destruct (decide (n = NStr "counter_0_1")) as [->|Hne].
  - by rewrite !lookup_insert_eq.
  - by rewrite !lookup_insert_ne, !lookup_empty.
Defined.

(** ** The redundancy fallback *)

(** X3: [counter_neuron_died] reports a death only for a node that is
    marked dead in a graph whose marking is complete: it returns [True]
    iff no node lacks [rad_death] and the named node has
    [rad_death = True].  On a graph in which every node is marked, a name
    that is no node gives a [KeyError]. *)
Theorem counter_neuron_died_true_iff (G : DiGraph) (name : string) :
  (counter_neuron_died G name = inr true ↔
   ¬ some_node_unmarked G ∧
   ∃ a, nodes G !! NStr name = Some a ∧ rad_death a = Some true) ∧
  (some_node_marked G → ¬ some_node_unmarked G →
   nodes G !! NStr name = None →
   counter_neuron_died G name = inl (KeyError (NStr name))).
Proof.
  unfold counter_neuron_died. rewrite graph_has_dead_neurons_cases.
  split.
  - split.
    + destruct (bool_decide (some_node_marked G)) eqn:Hm; simpl; [|done].
      destruct (bool_decide (some_node_unmarked G)) eqn:Hu; simpl; [done|].
      apply bool_decide_eq_false_1 in Hu. unfold node_lookup.
      destruct (nodes G !! NStr name) as [a|]; simpl; [|done].
      destruct (rad_death a) as [b|] eqn:Hb; simpl; [|done].
      intros [= ->]. split; [done|]. by exists a.
    + intros [Hu (a & Ha & Hdead)].
      rewrite bool_decide_eq_true_2.
      * rewrite bool_decide_eq_false_2 by done. simpl.
        unfold node_lookup. rewrite Ha. simpl. by rewrite Hdead.
      * exists (NStr name), a. split; [done|]. by rewrite Hdead.
  - intros Hm Hu Hnone.
    rewrite bool_decide_eq_true_2, bool_decide_eq_false_2 by done. simpl.
    unfold node_lookup. by rewrite Hnone.
Qed.

Lemma counter_neuron_died_true_iff_witness :
  counter_neuron_died fallback_graph "counter_2_3" = inr true ∧
  counter_neuron_died fallback_graph "counter_9_3"
  = inl (KeyError (NStr "counter_9_3")).
Proof.
  destruct (counter_neuron_died_true_iff fallback_graph "counter_2_3")
    as [Hiff _].
  destruct (counter_neuron_died_true_iff fallback_graph "counter_9_3")
    as [_ Hkey].
  split.
  - apply Hiff. split; [compute_done|]. eexists. split; reflexivity.
  - apply Hkey; compute_done.
Defined.

(** X4: on a graph in which [rad_death] is present on some node and
    absent from another, the redundancy aware readout raises the
    exception of [graph_has_dead_neurons] as soon as the input graph has
    a node, and so does [get_snn_results] with redundancy; for an input
    graph without nodes nothing is read and the result is empty. *)
Theorem redundancy_readout_refuses_partial_marking
    (alipour_counter_marks : gmap string Q) (input_graph G : DiGraph)
    (m_val : Z) :
  some_node_marked G → some_node_unmarked G →
  (0 < len input_graph →
   get_nx_LIF_count_with_redundancy input_graph G m_val
   = inl (Exception rad_death_not_set_msg) ∧
   get_snn_results alipour_counter_marks input_graph m_val true G
   = inl (Exception rad_death_not_set_msg)) ∧
  (len input_graph = 0 →
   get_nx_LIF_count_with_redundancy input_graph G m_val = inr ∅).
Proof.
  intros Hm Hu.
  assert (Hdied : ∀ name,
    counter_neuron_died G name = inl (Exception rad_death_not_set_msg)).
  { intros name. unfold counter_neuron_died.
    rewrite graph_has_dead_neurons_cases.
    by rewrite !bool_decide_eq_true_2. }
  split.
  - intros Hlen.
    assert (Hread : get_nx_LIF_count_with_redundancy input_graph G m_val
                    = inl (Exception rad_death_not_set_msg)).
    { unfold get_nx_LIF_count_with_redundancy.
      destruct (len input_graph) as [|n]; [lia|].
      cbn [seq py_for]. by rewrite Hdied. }
    split; [done|]. unfold get_snn_results. simpl. by rewrite Hread.
  - intros Hlen. unfold get_nx_LIF_count_with_redundancy. by rewrite Hlen.
Qed.

Lemma redundancy_readout_refuses_partial_marking_witness :
  get_snn_results ∅ one_node 1 true partially_marked_graph
  = inl (Exception rad_death_not_set_msg).
Proof.
  destruct (redundancy_readout_refuses_partial_marking
              ∅ one_node partially_marked_graph 1) as [Hraise _].
  - compute_done.
  - compute_done.
  - apply Hraise. compute_done.
Defined.

(** X5: when the marking is complete (on every node or on none) and no
    counter neuron of the last iteration is marked dead, the redundancy
    aware readout does what the readout without redundancy does, errors
    included: the [red_] neurons are only read for dead counter
    neurons. *)
Theorem redundancy_readout_without_dead_counters
    (input_graph G : DiGraph) (m_val : Z) :
  all_nodes_marked G ∨ no_node_marked G →
  (∀ i a, i < len input_graph →
     nodes G !! NStr (counter_name i m_val) = Some a →
     rad_death a ≠ Some true) →
  get_nx_LIF_count_with_redundancy input_graph G m_val =
  get_nx_LIF_count_without_redundancy input_graph G m_val.
Proof.
  intros Hmark Halive.
  unfold get_nx_LIF_count_with_redundancy,
    get_nx_LIF_count_without_redundancy.
  apply py_for_ext. intros counts i Hi. apply elem_of_seq in Hi.
  destruct Hmark as [Hall|Hnone];
    [|by rewrite counter_neuron_died_unmarked].
  destruct (decide (nodes G = ∅)) as [Hempty|Hne].
  { rewrite counter_neuron_died_unmarked; [done|].
    intros n a Hn. by rewrite Hempty, lookup_empty in Hn. }
  unfold counter_neuron_died.
  rewrite graph_has_dead_neurons_all_marked by done. simpl.
  unfold read_u, node_lookup.
  destruct (nodes G !! NStr (counter_name i m_val)) as [a|] eqn:Ha;
    simpl; [|done].
  destruct (Hall _ _ Ha) as [b Hb]. rewrite Hb. simpl.
  destruct b.
  - exfalso. apply (Halive i a); [lia|done|done].
  - change ("" +:+ counter_name i m_val) with (counter_name i m_val).
    by rewrite Ha.
Qed.

Lemma redundancy_readout_without_dead_counters_witness :
  get_nx_LIF_count_with_redundancy one_node two_marked_nodes 1 =
  get_nx_LIF_count_without_redundancy one_node two_marked_nodes 1.
Proof.
  apply (redundancy_readout_without_dead_counters one_node
           two_marked_nodes 1).
  - left. compute_done.
  - intros i a Hi. change (i < 1) in Hi. destruct i; [|lia].
    intros Ha. vm_compute in Ha. injection Ha as <-. discriminate.
Defined.

(** ** The results of all graphs of a run *)

Lemma result_key_inj (n1 n2 : string) :
  n1 ∈ snn_graph_names → n2 ∈ snn_graph_names →
  result_key n1 = result_key n2 → n1 = n2.
Proof.
  unfold snn_graph_names. rewrite !elem_of_cons, !elem_of_nil.
  intros [->|[->|[->|[->|[]]]]] [->|[->|[->|[->|[]]]]]; by vm_compute.
Qed.

Lemma dict_lookup_inr {A} (d : list (string * A)) (k : string) (a : A) :
  dict_lookup d k = inr a → (k, a) ∈ d.
Proof.
  induction d as [|[k' a'] d IH]; simpl; [done|].
  destruct (String.eqb_spec k' k) as [->|_].
  - intros [= ->]. left.
  - intros H. right. by apply IH.
Qed.

Lemma dict_lookup_None {A} (d : list (string * A)) (k : string) :
  k ∉ d.*1 → dict_lookup d k = inl (KeyError (NStr k)).
Proof.
  induction d as [|[k' a'] d IH]; simpl; [done|].
  intros Hnotin. apply not_elem_of_cons in Hnotin as [Hne Hnotin].
  destruct (String.eqb_spec k' k) as [->|_]; [done|]. by apply IH.
Qed.

(** A dictionary holds one value per key. *)
Lemma dict_value_unique {A} (d : list (string * A)) (k : string) (a b : A) :
  NoDup d.*1 → (k, a) ∈ d → (k, b) ∈ d → a = b.
Proof.
  intros Hnd Ha Hb.
  apply list_elem_of_lookup in Ha as [i Hi].
  apply list_elem_of_lookup in Hb as [j Hj].
  assert (i = j) as ->; [|congruence].
  eapply NoDup_lookup; [exact Hnd| |];
    rewrite list_lookup_fmap; [by rewrite Hi|by rewrite Hj].
Qed.

Section ResultsLoop.

Variable alipour_counter_marks : gmap string Q.
Variable input_graph : DiGraph.
Variable m_val : Z.

Local Abbreviation body :=
  (get_mdsa_snn_results_body alipour_counter_marks input_graph m_val).

Local Abbreviation results_of name g :=
  (get_snn_results alipour_counter_marks input_graph m_val
     (read_with_redundancy name) g).

(** The body of the loop in terms of the name of the graph. *)
Lemma body_by_name latest results name value :
  body (latest, results) (name, value) =
  let* latest' :=
    match value with
    | VList l =>
        match last l with
        | Some g => ret (Some g)
        | None => raise (IndexError "list index out of range")
        end
    | VGraph _ => ret latest
    end in
  if bool_decide (name ∈ snn_graph_names) then
    let* g := read_local "latest_snn_graph" latest' in
    let* r := results_of name g in
    ret (latest', <[result_key name := r]> results)
  else ret (latest', results).
Proof.
  unfold get_mdsa_snn_results_body.
  destruct (match value with
            | VList l => _
            | VGraph _ => _
            end) as [e|latest']; simpl; [done|].
  destruct (String.eqb_spec name "snn_algo_graph") as [->|H1]; [done|].
  destruct (String.eqb_spec name "adapted_snn_graph") as [->|H2]; [done|].
  destruct (String.eqb_spec name "rad_snn_algo_graph") as [->|H3]; [done|].
  destruct (String.eqb_spec name "rad_adapted_snn_graph") as [->|H4];
    [done|].
  rewrite bool_decide_eq_false_2; [done|].
  unfold snn_graph_names. rewrite !elem_of_cons, elem_of_nil. tauto.
Qed.

(** The loop only adds result keys of the names it met. *)
Lemma results_loop_keys items st st' k :
  py_for items body st = inr st' → is_Some (st'.2 !! k) →
  is_Some (st.2 !! k) ∨
  ∃ name value,
    (name, value) ∈ items ∧ name ∈ snn_graph_names ∧ k = result_key name.
Proof.
  revert st. induction items as [|[name value] items IH]; intros st; simpl.
  - intros [= ->] Hk. by left.
  - destruct st as [latest results]. rewrite body_by_name.
    intros Hloop Hk.
    apply bind_inr in Hloop as ([latest1 results1] & Hbody & Hloop).
    destruct (IH _ Hloop Hk) as [Hk1|(n & v & Hin & Hn & ->)].
    + apply bind_inr in Hbody as (latest' & _ & Hbody).
      case_bool_decide as Hname.
      * apply bind_inr in Hbody as (g & _ & Hbody).
        apply bind_inr in Hbody as (r & _ & [= <- <-]).
        simpl in Hk1. destruct (decide (result_key name = k)) as [<-|Hne].
        -- right. exists name, value. split; [left|done].
        -- left. simpl. by rewrite lookup_insert_ne in Hk1.
      * injection Hbody as <- <-. by left.
    + right. exists n, v. split; [by right|done].
Qed.

(** The loop keeps the result of a name it does not meet again. *)
Lemma results_loop_keeps items st st' name :
  name ∈ snn_graph_names → name ∉ items.*1 →
  py_for items body st = inr st' →
  st'.2 !! result_key name = st.2 !! result_key name.
Proof.
  intros Hname. revert st.
  induction items as [|[n value] items IH]; intros st Hnotin; simpl.
  - by intros [= ->].
  - apply not_elem_of_cons in Hnotin as [Hne Hnotin]. simpl in Hne.
    destruct st as [latest results]. rewrite body_by_name.
    intros Hloop.
    apply bind_inr in Hloop as ([latest1 results1] & Hbody & Hloop).
    rewrite (IH _ Hnotin Hloop). simpl.
    apply bind_inr in Hbody as (latest' & _ & Hbody).
    case_bool_decide as Hn.
    + apply bind_inr in Hbody as (g & _ & Hbody).
      apply bind_inr in Hbody as (r & _ & [= <- <-]).
      apply lookup_insert_ne. intros Heq.
      apply result_key_inj in Heq; done.
    + by injection Hbody as <- <-.
Qed.

(** The counts of a graph whose value is a list are read from the last
    graph of that list. *)
Lemma results_loop_reads_own_list items st st' name l :
  NoDup items.*1 → py_for items body st = inr st' →
  (name, VList l) ∈ items → name ∈ snn_graph_names →
  ∃ g r, last l = Some g ∧ results_of name g = inr r ∧
         st'.2 !! result_key name = Some r.
Proof.
  intros Hnd Hloop Hin Hname. revert st Hnd Hloop Hin.
  induction items as [|[n value] items IH]; intros st Hnd Hloop Hin.
  - by apply elem_of_nil in Hin.
  - simpl in Hnd. apply NoDup_cons in Hnd as [Hnotin Hnd].
    simpl in Hloop. destruct st as [latest results].
    rewrite body_by_name in Hloop.
    apply bind_inr in Hloop as ([latest1 results1] & Hbody & Hloop).
    apply elem_of_cons in Hin as [[= <- <-]|Hin]; [|by eapply IH].
    rewrite (results_loop_keeps _ _ _ name Hname Hnotin Hloop). simpl.
    apply bind_inr in Hbody as (latest' & Hlast & Hbody).
    rewrite bool_decide_eq_true_2 in Hbody by done.
    destruct (last l) as [g|]; simpl in Hlast; [|done].
    injection Hlast as <-. simpl in Hbody.
    apply bind_inr in Hbody as (r & Hr & [= <- <-]).
    exists g, r. split; [done|]. split; [done|]. apply lookup_insert_eq.
Qed.

(** The loop returns when every value apart from the input graph is a
    list with a last graph that can be read. *)
Lemma results_loop_total items st :
  (∀ name value, (name, value) ∈ items →
     (name = "input_graph" ∧ ∃ g, value = VGraph g) ∨
     ∃ l g, value = VList l ∧ last l = Some g ∧
            (name ∈ snn_graph_names → returned (results_of name g))) →
  returned (py_for items body st).
Proof.
  revert st. induction items as [|[name value] items IH]; intros st Hall.
  - by eexists.
  - simpl. destruct st as [latest results]. rewrite body_by_name.
    assert (Hrest : ∀ st', returned (py_for items body st')).
    { intros st'. apply IH. intros n v Hin. apply Hall. by right. }
    destruct (Hall name value) as [[-> [g ->]]|(l & g & -> & Hl & Hread)];
      [left| |].
    + simpl. apply Hrest.
    + rewrite Hl. simpl. case_bool_decide as Hname; simpl.
      * destruct (Hread Hname) as [r Hr]. rewrite Hr. simpl. apply Hrest.
      * apply Hrest.
Qed.

End ResultsLoop.

Section AllResults.

Variable get_alipour_nodes :
  DiGraph → Z → gmap string pyval → py (gmap string Q).
Variable m_val : Z.
Variable stage_2_graphs : list (string * GraphValue).

Local Abbreviation all_results :=
  (get_mdsa_snn_results get_alipour_nodes m_val stage_2_graphs).

Lemma get_mdsa_snn_results_loop input_graph props marks :
  dict_lookup stage_2_graphs "input_graph" = inr (VGraph input_graph) →
  alg_props (graph input_graph) = Some props →
  get_alipour_nodes input_graph m_val props = inr marks →
  all_results =
  let* st :=
    py_for stage_2_graphs
      (get_mdsa_snn_results_body marks input_graph m_val) (None, ∅) in
  ret st.2.
Proof.
  intros Hig Hprops Hmarks. unfold get_mdsa_snn_results.
  rewrite Hig. simpl. rewrite Hprops. simpl. rewrite Hmarks. simpl.
  by destruct (py_for stage_2_graphs _ _) as [e|[latest results]].
Qed.

(** X6: for a graph name whose value is a list, the counts in the results
    are those of the last graph of that list, read with the redundancy
    fallback exactly for the two adapted graphs, and stored under the
    result key of the name; and [get_mdsa_snn_results] returns when every
    value apart from the input graph is a list whose last graph can be
    read. *)
Theorem get_mdsa_snn_results_reads_last_of_own_list
    (input_graph : DiGraph) (props : gmap string pyval)
    (marks : gmap string Q) :
  NoDup stage_2_graphs.*1 →
  dict_lookup stage_2_graphs "input_graph" = inr (VGraph input_graph) →
  alg_props (graph input_graph) = Some props →
  get_alipour_nodes input_graph m_val props = inr marks →
  (∀ results name l,
     all_results = inr results →
     (name, VList l) ∈ stage_2_graphs → name ∈ snn_graph_names →
     ∃ g r,
       last l = Some g ∧
       get_snn_results marks input_graph m_val
         (read_with_redundancy name) g = inr r ∧
       results !! result_key name = Some r) ∧
  ((∀ name value,
      (name, value) ∈ stage_2_graphs → name ≠ "input_graph" →
      ∃ l g, value = VList l ∧ last l = Some g ∧
        (name ∈ snn_graph_names →
         returned (get_snn_results marks input_graph m_val
                     (read_with_redundancy name) g))) →
   returned all_results).
Proof.
  intros Hnd Hig Hprops Hmarks.
  rewrite (get_mdsa_snn_results_loop _ _ _ Hig Hprops Hmarks). split.
  - intros results name l Hres Hin Hname.
    apply bind_inr in Hres as (st & Hloop & [= <-]).
    by eapply results_loop_reads_own_list.
  - intros Hall.
    destruct (results_loop_total marks input_graph m_val stage_2_graphs
                (None, ∅)) as [st Hst]; [|rewrite Hst; by eexists].
    intros name value Hin.
    destruct (decide (name = "input_graph")) as [->|Hne]; [left|right].
    + split; [done|]. exists input_graph.
      apply dict_lookup_inr in Hig.
      by apply (dict_value_unique stage_2_graphs "input_graph").
    + by apply Hall.
Qed.

(** X7: the results only have keys of graph names that are in
    [stage_2_graphs], and only the four result keys: a graph under
    another name is not read out. *)
Theorem get_mdsa_snn_results_keys
    (results : gmap string (gmap string ResultValue)) (k : string) :
  all_results = inr results → is_Some (results !! k) →
  k ∈ ["snn_algo_result"; "adapted_snn_algo_result"; "rad_snn_algo_graph";
       "rad_adapted_snn_graph"] ∧
  ∃ name value,
    (name, value) ∈ stage_2_graphs ∧ name ∈ snn_graph_names ∧
    k = result_key name.
Proof.
  intros Hres Hk. unfold get_mdsa_snn_results in Hres.
  apply bind_inr in Hres as (v & _ & Hres).
  apply bind_inr in Hres as (ig & _ & Hres).
  apply bind_inr in Hres as (props & _ & Hres).
  apply bind_inr in Hres as (marks & _ & Hres).
  apply bind_inr in Hres as ([latest results'] & Hloop & [= <-]).
  destruct (results_loop_keys _ _ _ _ _ _ k Hloop Hk)
    as [Hempty|(name & value & Hin & Hname & ->)].
  { simpl in Hempty. rewrite lookup_empty in Hempty. by destruct Hempty. }
  split; [|by exists name, value].
  revert Hname. unfold snn_graph_names.
  rewrite !elem_of_cons, !elem_of_nil.
  intros [->|[->|[->|[->|[]]]]]; vm_compute; tauto.
Qed.

(** X8: what [get_mdsa_snn_results] raises before it reads a graph: a
    [KeyError] when [stage_2_graphs] has no input graph, an
    [AttributeError] when the input graph is a list, a [KeyError] when the
    input graph has no [alg_props], and the error of the reference
    algorithm; an empty list as the first value apart from the input
    graph gives an [IndexError], whatever its name is. *)
Theorem get_mdsa_snn_results_errors :
  ("input_graph" ∉ stage_2_graphs.*1 →
   all_results = inl (KeyError (NStr "input_graph"))) ∧
  (∀ l, dict_lookup stage_2_graphs "input_graph" = inr (VList l) →
        ∃ msg, all_results = inl (AttributeError msg)) ∧
  (∀ input_graph,
     dict_lookup stage_2_graphs "input_graph" = inr (VGraph input_graph) →
     (alg_props (graph input_graph) = None →
      all_results = inl (KeyError (NStr "alg_props"))) ∧
     (∀ props e,
        alg_props (graph input_graph) = Some props →
        get_alipour_nodes input_graph m_val props = inl e →
        all_results = inl e) ∧
     (∀ props marks pre name post,
        alg_props (graph input_graph) = Some props →
        get_alipour_nodes input_graph m_val props = inr marks →
        NoDup stage_2_graphs.*1 →
        stage_2_graphs = pre ++ (name, VList []) :: post →
        Forall (λ item, item.1 = "input_graph") pre →
        ∃ msg, all_results = inl (IndexError msg))).
Proof.
  split; [|split].
  - intros Hnotin. unfold get_mdsa_snn_results.
    by rewrite dict_lookup_None.
  - intros l Hl. unfold get_mdsa_snn_results. rewrite Hl. by eexists.
  - intros input_graph Hig. split; [|split].
    + intros Hnone. unfold get_mdsa_snn_results. rewrite Hig. simpl.
      by rewrite Hnone.
    + intros props e Hprops He. unfold get_mdsa_snn_results.
      rewrite Hig. simpl. rewrite Hprops. simpl. by rewrite He.
    + intros props marks pre name post Hprops Hmarks Hnd Heq Hpre.
      rewrite (get_mdsa_snn_results_loop _ _ _ Hig Hprops Hmarks).
      rewrite Heq in Hnd, Hig. rewrite Heq.
      destruct (only_input_graph_before pre ((name, VList []) :: post)
                  Hnd Hpre) as [->|[value ->]].
      * cbn [app py_for]. rewrite body_by_name. by eexists.
      * simpl in Hig. injection Hig as ->.
        cbn [app py_for]. rewrite body_input_graph. cbn [bind].
        rewrite body_by_name. by eexists.
Qed.

End AllResults.

Lemma get_mdsa_snn_results_reads_last_of_own_list_witness :
  ∃ results r,
    get_mdsa_snn_results no_alipour_marks 1 simulated_stage_2_graphs
      = inr results ∧
    get_snn_results ∅ one_node_with_props 1 false fault_free_graph
      = inr r ∧
    results !! "snn_algo_result" = Some r.
Proof.
  destruct (get_mdsa_snn_results_reads_last_of_own_list
              no_alipour_marks 1 simulated_stage_2_graphs
              one_node_with_props ∅ ∅) as [Hread Htotal];
    [compute_done|reflexivity|reflexivity|reflexivity|].
  destruct Htotal as [results Hres].
  { intros name value Hin Hne. unfold simulated_stage_2_graphs in Hin.
    rewrite !elem_of_cons, elem_of_nil in Hin.
    destruct Hin as [[= -> ->]|[[= -> ->]|[[= -> ->]|[]]]]; [done| |];
      eexists _, _; (split; [reflexivity|]); (split; [reflexivity|]);
      intros _; eexists; vm_compute; reflexivity. }
  destruct (Hread results "snn_algo_graph"
              [compiled_graph; fault_free_graph] Hres)
    as (g & r & Hg & Hr & Hkey); [right; left|compute_done|].
  injection Hg as <-.
  change (read_with_redundancy "snn_algo_graph") with false in Hr.
  change (result_key "snn_algo_graph") with "snn_algo_result" in Hkey.
  exists results, r. split; [exact Hres|]. split; [exact Hr|exact Hkey].
Defined.

Lemma get_mdsa_snn_results_keys_witness :
  "adapted_snn_algo_result" ∈
    ["snn_algo_result"; "adapted_snn_algo_result"; "rad_snn_algo_graph";
     "rad_adapted_snn_graph"].
Proof.
  assert (∃ results,
    get_mdsa_snn_results no_alipour_marks 1 simulated_stage_2_graphs
      = inr results ∧
    is_Some (results !! "adapted_snn_algo_result"))
    as (results & Hres & Hk).
  { eexists. split; [vm_compute; reflexivity|].
    vm_compute. eexists. reflexivity. }
  exact (proj1 (get_mdsa_snn_results_keys no_alipour_marks 1
                  simulated_stage_2_graphs results
                  "adapted_snn_algo_result" Hres Hk)).
Defined.

Lemma get_mdsa_snn_results_errors_witness :
  get_mdsa_snn_results no_alipour_marks 1
    [("snn_algo_graph", VList [fault_free_graph])]
  = inl (KeyError (NStr "input_graph")) ∧
  ∃ msg,
    get_mdsa_snn_results no_alipour_marks 1
      [("input_graph", VGraph one_node_with_props);
       ("another_graph", VList [])]
    = inl (IndexError msg).
Proof.
  split.
  - apply (get_mdsa_snn_results_errors no_alipour_marks 1
             [("snn_algo_graph", VList [fault_free_graph])]).
    compute_done.
  - destruct (get_mdsa_snn_results_errors no_alipour_marks 1
                [("input_graph", VGraph one_node_with_props);
                 ("another_graph", VList [])]) as (_ & _ & H).
    destruct (H one_node_with_props eq_refl) as (_ & _ & Hindex).
    apply (Hindex ∅ ∅ [("input_graph", VGraph one_node_with_props)]
             "another_graph" []);
      [reflexivity|reflexivity|compute_done|reflexivity|].
    by repeat constructor.
Defined.

(** ** Stage 1: the choice of the input graph *)

Lemma py_list_index_nonneg {A} (l : list A) (i : Z) (a : A) :
  (0 ≤ i)%Z → l !! Z.to_nat i = Some a → py_list_index l i = inr a.
Proof.
  intros Hi Ha. unfold py_list_index.
  rewrite (proj2 (Z.ltb_ge i 0)) by done.
  rewrite (proj2 (Z.ltb_ge i 0)) by done. by rewrite Ha.
Qed.

Section InputGraph.

Variable get_graphs : Z → py (list DiGraph).
Variable run_config : InputGraphConfig.

(** X9: with [n] input graphs of the requested size,
    [get_the_input_graphs] returns the graph number [graph_nr] when
    [0 <= graph_nr < n] and raises its exception when [graph_nr >= n]; the
    guard has no lower bound, so a negative [graph_nr] down to [-n]
    selects a graph counted from the end, and one below [-n] raises an
    [IndexError]. *)
Theorem get_the_input_graphs_bounds (input_graphs : list DiGraph) :
  get_graphs (graph_size run_config) = inr input_graphs →
  let n := Z.of_nat (length input_graphs) in
  let nr := graph_nr run_config in
  (∀ G, (0 ≤ nr)%Z → input_graphs !! Z.to_nat nr = Some G →
        get_the_input_graphs get_graphs run_config = inr G) ∧
  ((n ≤ nr)%Z →
   get_the_input_graphs get_graphs run_config
   = inl (Exception input_graph_not_found_msg)) ∧
  (∀ G, (nr < 0)%Z → (0 ≤ n + nr)%Z →
        input_graphs !! Z.to_nat (n + nr) = Some G →
        get_the_input_graphs get_graphs run_config = inr G) ∧
  ((nr < - n)%Z →
   ∃ msg, get_the_input_graphs get_graphs run_config
          = inl (IndexError msg)).
Proof.
  intros Hgraphs n nr. unfold get_the_input_graphs. rewrite Hgraphs.
  simpl. fold n nr. split; [|split; [|split]].
  - intros G Hnr HG.
    assert (nr < n)%Z.
    { apply lookup_lt_Some in HG. unfold n. lia. }
    rewrite (proj2 (Z.ltb_lt nr n)) by done.
    by apply py_list_index_nonneg.
  - intros Hnr. by rewrite (proj2 (Z.ltb_ge nr n)).
  - intros G Hneg Hlow HG.
    rewrite (proj2 (Z.ltb_lt nr n)) by lia.
    unfold py_list_index. fold n.
    rewrite (proj2 (Z.ltb_lt nr 0)) by done.
    rewrite (proj2 (Z.ltb_ge (n + nr) 0)) by done. by rewrite HG.
  - intros Hlow.
    rewrite (proj2 (Z.ltb_lt nr n)) by lia.
    unfold py_list_index. fold n.
    rewrite (proj2 (Z.ltb_lt nr 0)) by lia.
    rewrite (proj2 (Z.ltb_lt (n + nr) 0)) by lia. by eexists.
Qed.

End InputGraph.

Lemma get_the_input_graphs_bounds_witness :
  returned (get_the_input_graphs spec_get_graphs (input_graph_config 1)) ∧
  get_the_input_graphs spec_get_graphs (input_graph_config 2)
  = inl (Exception input_graph_not_found_msg) ∧
  returned (get_the_input_graphs spec_get_graphs (input_graph_config (-2))).
Proof.
  split; [|split].
  - destruct (get_the_input_graphs_bounds spec_get_graphs
                (input_graph_config 1) _ eq_refl) as (Hin & _).
    eexists. apply Hin; [done|reflexivity].
  - destruct (get_the_input_graphs_bounds spec_get_graphs
                (input_graph_config 2) _ eq_refl) as (_ & Hout & _).
    apply Hout. done.
  - destruct (get_the_input_graphs_bounds spec_get_graphs
                (input_graph_config (-2)) _ eq_refl) as (_ & _ & Hneg & _).
    eexists. apply Hneg; [done|done|reflexivity].
Defined.

(** ** Stage 1: when a graph is returned *)

Section AdaptedGraphReturns.

Variable implement_adaptation_mechanism : DiGraph → py DiGraph.
Variable h : heap.
Variable snn_algo_graph : loc.
Variable G : DiGraph.
Variable run_config : RunConfig.
Hypothesis HG : h !! snn_algo_graph = Some G.

Local Abbreviation adapted_graph :=
  (get_adapted_graph implement_adaptation_mechanism h snn_algo_graph
     run_config).

Lemma get_redundant_graph_returns red_lev h' g' :
  get_redundant_graph implement_adaptation_mechanism h snn_algo_graph
    red_lev = inr (h', g') →
  py_eq_int red_lev 1 = true ∧
  returned (implement_adaptation_mechanism G).
Proof.
  unfold get_redundant_graph.
  destruct (py_eq_int red_lev 0); [done|].
  destruct (py_eq_int red_lev 1); [|done].
  unfold deepcopy.
  rewrite lookup_total_insert_eq, (lookup_total_correct _ _ _ HG).
  destruct (implement_adaptation_mechanism G) as [e|adapted]; [done|].
  intros _. split; [done|by eexists].
Qed.

(** X10: [get_adapted_graph] returns a graph iff the first adaptation is
    ['redundancy'] with a float equal to 1 and the adaptation mechanism
    returns; it returns [None] iff the adaptation mapping is empty, and
    then nothing is changed; in every other case it raises. *)
Theorem get_adapted_graph_returns_iff :
  ((∃ h' g', adapted_graph = inr (h', Some g')) ↔
   ∃ q rest,
     adaptation run_config = (Some "redundancy", PyFloat q) :: rest ∧
     (q == 1)%Q ∧ returned (implement_adaptation_mechanism G)) ∧
  (∀ h', adapted_graph = inr (h', None) ↔
         adaptation run_config = [] ∧ h' = h).
Proof.
  unfold get_adapted_graph. split.
  - split.
    + intros (h' & g' & Hres).
      destruct (adaptation run_config) as [|[[name|] setting] rest];
        [done| |done].
      destruct (String.eqb_spec name "redundancy") as [->|_]; [|done].
      destruct setting as [| | |q|]; simpl in Hres; try done.
      apply bind_inr in Hres as ([h1 g1] & Hred & _).
      apply get_redundant_graph_returns in Hred as [H1 Hret].
      exists q, rest. split; [done|]. split; [|done].
      by apply Qeq_bool_iff in H1.
    + intros (q & rest & -> & Hq & [adapted Hadapted]). simpl.
      pose proof (get_redundant_graph_level_1
                    implement_adaptation_mechanism h snn_algo_graph G
                    (PyFloat q) HG) as H.
      rewrite Hadapted in H.
      destruct H as (h' & g' & -> & _).
      * simpl. destruct (Qeq_bool q 0) eqn:H0; [|done].
        apply Qeq_bool_iff in H0. rewrite H0 in Hq. done.
      * simpl. by apply Qeq_bool_iff.
      * by exists h', g'.
  - intros h'. split.
    + destruct (adaptation run_config) as [|[[name|] setting] rest].
      * by intros [= ->].
      * destruct (String.eqb_spec name "redundancy") as [->|_]; [|done].
        destruct (isinstance_float setting); simpl; [|done].
        destruct (get_redundant_graph _ _ _ _) as [e|[h1 g1]]; done.
      * done.
    + by intros [-> ->].
Qed.

(** X11: [has_adaptation] guards [get_adapted_graph]: when
    [get_adapted_graph] returns a graph, [has_adaptation] is [True]; when
    [has_adaptation] is [False], [get_adapted_graph] returns [None] for
    the empty mapping and raises its no adaptation exception otherwise;
    and when [has_adaptation] is [True], [get_adapted_graph] never returns
    [None]. *)
Theorem has_adaptation_guards_get_adapted_graph :
  ((∃ h' g', adapted_graph = inr (h', Some g')) →
   has_adaptation run_config = true) ∧
  (has_adaptation run_config = false →
   (adaptation run_config = [] ∧ adapted_graph = inr (h, None)) ∨
   adapted_graph = inl (Exception no_adaptation_msg)) ∧
  (has_adaptation run_config = true →
   ∀ h', adapted_graph ≠ inr (h', None)).
Proof.
  unfold has_adaptation, get_adapted_graph.
  destruct (adaptation run_config) as [|[[name|] setting] rest]; simpl.
  - split; [by intros (? & ? & ?)|]. split; [by left|done].
  - split; [done|]. split; [done|]. intros _ h'.
    destruct (String.eqb_spec name "redundancy") as [->|_]; [|done].
    destruct (isinstance_float setting); simpl; [|done].
    destruct (get_redundant_graph _ _ _ _) as [e|[h1 g1]]; done.
  - split; [by intros (? & ? & ?)|]. split; [by right|done].
Qed.

End AdaptedGraphReturns.

Lemma get_adapted_graph_returns_iff_witness :
  ∃ h' g',
    get_adapted_graph spec_implement_adaptation_mechanism
      {[0 := compiled_graph]} 0 mdsa_run_config = inr (h', Some g').
Proof.
  apply (proj1 (get_adapted_graph_returns_iff
                  spec_implement_adaptation_mechanism
                  {[0 := compiled_graph]} 0 compiled_graph mdsa_run_config
                  (lookup_singleton_eq _ _))).
  exists 1%Q, []. split; [reflexivity|]. split; [reflexivity|].
  by eexists.
Defined.

Lemma has_adaptation_guards_get_adapted_graph_witness :
  get_adapted_graph spec_implement_adaptation_mechanism
    {[0 := compiled_graph]} 0 no_adaptation_run_config
  = inl (Exception no_adaptation_msg).
Proof.
  destruct (has_adaptation_guards_get_adapted_graph
              spec_implement_adaptation_mechanism
              {[0 := compiled_graph]} 0 no_adaptation_run_config)
    as (_ & Hnone & _).
  destruct (Hnone eq_refl) as [[Hempty _]|Hraise]; [done|exact Hraise].
Defined.

Section SnnAlgoGraphReturns.

Variable specify_mdsa_network_properties :
  DiGraph → pyval → pyval → py DiGraph.
Variable input_graph : DiGraph.
Variable run_config : RunConfig.

Local Abbreviation snn_algo_graph :=
  (get_snn_algo_graph specify_mdsa_network_properties input_graph
     run_config).

(** X12: [get_snn_algo_graph] returns only when MDSA with an integer
    [m_val] is the one requested algorithm and its compilation returns;
    with no algorithm at all it fails with an unbound variable error,
    because the variable it returns is only bound in the loop. *)
Theorem get_snn_algo_graph_returns_iff :
  NoDup (algorithm run_config).*1 →
  (returned snn_algo_graph ↔
   ∃ settings m_val,
     algorithm run_config = [("MDSA", settings)] ∧
     settings !! "m_val" = Some m_val ∧ isinstance_int m_val = true ∧
     returned (specify_mdsa_network_properties input_graph m_val
                 (seed run_config))) ∧
  (algorithm run_config = [] →
   snn_algo_graph = inl (UnboundLocalError "snn_algo_graph")).
Proof.
  intros Hnd. split; [split|].
  - intros [g Hg].
    destruct (algorithm run_config) as [|[name settings] [|item rest]]
      eqn:Halg.
    + unfold get_snn_algo_graph in Hg. by rewrite Halg in Hg.
    + unfold get_snn_algo_graph in Hg. rewrite Halg in Hg.
      cbn [py_for] in Hg.
      destruct (decide (name = "MDSA")) as [->|Hne];
        [|by rewrite body_other_name in Hg].
      unfold get_snn_algo_graph_body in Hg. simpl in Hg.
      destruct (settings !! "m_val") as [m_val|] eqn:Hm; [|done].
      destruct (isinstance_int m_val) eqn:Hint; [|done].
      exists settings, m_val. repeat split; try done.
      destruct (specify_mdsa_network_properties _ _ _) as [e|g'];
        [done|by eexists].
    + destruct (other_algorithm_requested run_config)
        as (n & s & Hin & Hne);
        [by rewrite Halg|rewrite Halg; simpl; lia|].
      assert (raised snn_algo_graph) as [e He]; [|congruence].
      unfold get_snn_algo_graph. apply bind_raised, py_for_raised.
      exists (n, s). split; [done|].
      intros st. rewrite body_other_name by done. by eexists.
  - intros (settings & m_val & Halg & Hm & Hint & [g Hg]).
    unfold get_snn_algo_graph. rewrite Halg. simpl.
    rewrite Hm, Hint, Hg. by eexists.
  - intros Halg. unfold get_snn_algo_graph. by rewrite Halg.
Qed.

End SnnAlgoGraphReturns.

Lemma get_snn_algo_graph_returns_iff_witness :
  ∃ settings m_val,
    algorithm mdsa_run_config = [("MDSA", settings)] ∧
    settings !! "m_val" = Some m_val ∧ isinstance_int m_val = true ∧
    returned (spec_specify_mdsa_network_properties three_nodes m_val
                (seed mdsa_run_config)).
Proof.
  apply (proj1 (get_snn_algo_graph_returns_iff
                  spec_specify_mdsa_network_properties three_nodes
                  mdsa_run_config ltac:(compute_done))).
  eexists. vm_compute. reflexivity.
Defined.

(** ** Stage 1: the graphs of a run *)

(** A graph [get_redundant_graph] returns is a new object that holds what
    the adaptation mechanism made of a copy; nothing else is changed. *)
Lemma get_redundant_graph_inr
    (implement_adaptation_mechanism : DiGraph → py DiGraph)
    (h : heap) (g : loc) (red_lev : pyval) (h' : heap) (g' : loc) :
  get_redundant_graph implement_adaptation_mechanism h g red_lev
    = inr (h', g') →
  ∃ adapted,
    implement_adaptation_mechanism (h !!! g) = inr adapted ∧
    h !! g' = None ∧ h' = <[g' := adapted]> h.
Proof.
  unfold get_redundant_graph.
  destruct (py_eq_int red_lev 0); [done|].
  destruct (py_eq_int red_lev 1); [|done].
  pose proof (deepcopy_fresh h g) as Hfresh. unfold deepcopy in *.
  simpl in Hfresh. rewrite lookup_total_insert_eq.
  destruct (implement_adaptation_mechanism (h !!! g)) as [e|adapted];
    [done|].
  intros [= <- <-]. exists adapted. by rewrite insert_insert_eq.
Qed.

Lemma get_adapted_graph_inr
    (implement_adaptation_mechanism : DiGraph → py DiGraph)
    (h : heap) (g : loc) (run_config : RunConfig)
    (h' : heap) (g' : loc) :
  get_adapted_graph implement_adaptation_mechanism h g run_config
    = inr (h', Some g') →
  ∃ adapted,
    implement_adaptation_mechanism (h !!! g) = inr adapted ∧
    h !! g' = None ∧ h' = <[g' := adapted]> h.
Proof.
  unfold get_adapted_graph.
  destruct (adaptation run_config) as [|[[name|] setting] rest];
    [done| |done].
  destruct (String.eqb_spec name "redundancy") as [->|_]; [|done].
  destruct (isinstance_float setting); simpl; [|done].
  destruct (get_redundant_graph _ _ _ _) as [e|[h1 g1]] eqn:Hred;
    simpl; [done|].
  intros [= <- <-]. by eapply get_redundant_graph_inr.
Qed.

(** When [has_adaptation] holds, [get_adapted_graph] does not return
    [None]. *)
Lemma get_adapted_graph_not_None
    (implement_adaptation_mechanism : DiGraph → py DiGraph)
    (h : heap) (g : loc) (run_config : RunConfig) (h' : heap) :
  has_adaptation run_config = true →
  get_adapted_graph implement_adaptation_mechanism h g run_config
    ≠ inr (h', None).
Proof.
  unfold has_adaptation, get_adapted_graph. intros Hhas Had.
  destruct (adaptation run_config) as [|[[name|] setting] rest];
    simpl in *; [done| |done].
  destruct (String.eqb_spec name "redundancy") as [->|_]; [|done].
  destruct (isinstance_float setting); simpl in Had; [|done].
  destruct (get_redundant_graph _ _ _ _) as [e|[h4 g4]]; done.
Qed.

(** *** The embedding on objects and the embedding on values *)

Lemma py_list_index_fmap {A B} (f : A → B) (l : list A) (i : Z) :
  py_list_index (f <$> l) i =
  match py_list_index l i with
  | inl e => inl e
  | inr a => inr (f a)
  end.
Proof.
  unfold py_list_index. rewrite length_fmap.
  set (j := if (i <? 0)%Z then (Z.of_nat (length l) + i)%Z else i).
  destruct (j <? 0)%Z; [done|].
  rewrite list_lookup_fmap. by destruct (l !! Z.to_nat j).
Qed.

Section ObjectsAndValues.

Variable get_graph_objects : heap → Z → py (heap * list loc).
Variable get_graphs : Z → py (list DiGraph).
Variable specify_mdsa_network_object :
  heap → loc → pyval → pyval → py (heap * loc).
Variable specify_mdsa_network_properties :
  DiGraph → pyval → pyval → py DiGraph.

(** The functions on objects return objects that hold what the functions
    on values return. *)
Hypothesis get_graphs_contents : ∀ h size,
  get_graphs size =
  match get_graph_objects h size with
  | inl e => inl e
  | inr (h1, refs) => inr (contents h1 refs)
  end.
Hypothesis specify_contents : ∀ h input_graph m_val seed,
  specify_mdsa_network_properties (h !!! input_graph) m_val seed =
  match specify_mdsa_network_object h input_graph m_val seed with
  | inl e => inl e
  | inr (h1, g) => inr (h1 !!! g)
  end.

Lemma get_input_graph_contents (h : heap) (run_config : InputGraphConfig) :
  get_input_graph get_graphs run_config =
  match ByReference.get_input_graph get_graph_objects h run_config with
  | inl e => inl e
  | inr (h1, g) => inr (h1 !!! g)
  end.
Proof.
  unfold ByReference.get_input_graph, ByReference.get_the_input_graphs,
    get_input_graph, get_the_input_graphs.
  rewrite (get_graphs_contents h (graph_size run_config)).
  destruct (get_graph_objects h (graph_size run_config))
    as [e|[h1 refs]]; simpl; [done|].
  unfold contents. rewrite length_fmap.
  destruct (_ <? _)%Z; [|done].
  rewrite py_list_index_fmap.
  by destruct (py_list_index refs (graph_nr run_config)).
Qed.

Lemma get_snn_algo_graph_contents (h : heap) (input_graph : loc)
    (run_config : RunConfig) :
  NoDup (algorithm run_config).*1 →
  get_snn_algo_graph specify_mdsa_network_properties
    (h !!! input_graph) run_config =
  match ByReference.get_snn_algo_graph specify_mdsa_network_object h
          input_graph run_config with
  | inl e => inl e
  | inr (h1, g) => inr (h1 !!! g)
  end.
Proof.
  unfold ByReference.get_snn_algo_graph, get_snn_algo_graph.
  intros Hnd.
  destruct (algorithm run_config) as [|[name settings] rest]; [done|].
  cbn [py_for].
  unfold ByReference.get_snn_algo_graph_body at 1,
    get_snn_algo_graph_body at 1.
  destruct (String.eqb_spec name "MDSA") as [->|Hne]; [|done].
  destruct (settings !! "m_val") as [m_val|]; [|done].
  destruct (isinstance_int m_val); [|done].
  rewrite (specify_contents h input_graph m_val (seed run_config)).
  destruct (specify_mdsa_network_object h input_graph m_val
              (seed run_config)) as [e|[h1 g]]; [done|].
  cbn [bind ret].
  destruct rest as [|[name2 settings2] rest]; [done|].
  assert (Hne : name2 ≠ "MDSA").
  { intros ->. apply NoDup_cons in Hnd as [Hnotin _].
    apply Hnotin. left. }
  cbn [py_for].
  unfold ByReference.get_snn_algo_graph_body at 1,
    get_snn_algo_graph_body at 1.
  by destruct (String.eqb_spec name2 "MDSA").
Qed.

End ObjectsAndValues.

Section UsedGraphsSpec.

Variable get_graphs : heap → Z → py (heap * list loc).
Variable specify_mdsa_network_properties :
  heap → loc → pyval → pyval → py (heap * loc).
Variable implement_adaptation_mechanism : DiGraph → py DiGraph.
Variable h : heap.
Variable run_config : InputGraphConfig.

(** X13: when [get_used_graphs] returns, its dictionary holds, in this
    order, under [input_graph] the object [get_input_graph] returned,
    under [snn_algo_graph] the object [get_snn_algo_graph] returned for
    that very input graph object and, iff [has_adaptation] holds, under
    [adapted_snn_graph] a graph that is never [None].  The adapted graph
    is an object that did not exist before the adaptation; it holds what
    the adaptation mechanism made of the contents of the compiled
    network; and the adaptation changes no object that existed before
    it, the compiled network among them. *)
Theorem get_used_graphs_spec (h' : heap)
    (graphs : list (string * option loc)) :
  ByReference.get_used_graphs get_graphs specify_mdsa_network_properties
    implement_adaptation_mechanism h run_config = inr (h', graphs) →
  ∃ h1 input_graph h2 snn_algo_graph,
    ByReference.get_input_graph get_graphs h run_config
      = inr (h1, input_graph) ∧
    ByReference.get_snn_algo_graph specify_mdsa_network_properties h1
      input_graph (settings run_config) = inr (h2, snn_algo_graph) ∧
    if has_adaptation (settings run_config) then
      ∃ adapted_snn_graph adapted,
        graphs = [("input_graph", Some input_graph);
                  ("snn_algo_graph", Some snn_algo_graph);
                  ("adapted_snn_graph", Some adapted_snn_graph)] ∧
        h2 !! adapted_snn_graph = None ∧
        implement_adaptation_mechanism (h2 !!! snn_algo_graph)
          = inr adapted ∧
        h' = <[adapted_snn_graph := adapted]> h2 ∧
        (∀ g, is_Some (h2 !! g) →
              g ≠ adapted_snn_graph ∧ h' !! g = h2 !! g)
    else
      graphs = [("input_graph", Some input_graph);
                ("snn_algo_graph", Some snn_algo_graph)] ∧
      h' = h2.
Proof.
  unfold ByReference.get_used_graphs. intros Hres.
  apply bind_inr in Hres as ([h1 input_graph] & Hinput & Hres).
  apply bind_inr in Hres as ([h2 snn_algo_graph] & Hsnn & Hres).
  exists h1, input_graph, h2, snn_algo_graph.
  split; [done|]. split; [done|].
  destruct (has_adaptation (settings run_config)) eqn:Hhas.
  - apply bind_inr in Hres as ([h3 adapted_opt] & Had & [= <- <-]).
    destruct adapted_opt as [adapted_snn_graph|];
      [|by apply get_adapted_graph_not_None in Had].
    apply get_adapted_graph_inr in Had as (adapted & Himpl & Hfresh & ->).
    exists adapted_snn_graph, adapted.
    split; [done|]. split; [done|]. split; [done|]. split; [done|].
    intros g [G HG].
    assert (g ≠ adapted_snn_graph) by (intros ->; congruence).
    split; [done|]. by rewrite lookup_insert_ne.
  - by injection Hres as <- <-.
Qed.

End UsedGraphsSpec.

Lemma get_used_graphs_spec_witness :
  ∃ h2 h' input_graph snn_algo_graph adapted_snn_graph adapted,
    ByReference.get_used_graphs spec_get_graph_objects
      spec_specify_mdsa_network_object
      spec_implement_adaptation_mechanism ∅ (input_graph_config 0)
    = inr (h', [("input_graph", Some input_graph);
                ("snn_algo_graph", Some snn_algo_graph);
                ("adapted_snn_graph", Some adapted_snn_graph)]) ∧
    h2 !! adapted_snn_graph = None ∧
    h' = <[adapted_snn_graph := adapted]> h2.
Proof.
  assert (∃ h' graphs,
    ByReference.get_used_graphs spec_get_graph_objects
      spec_specify_mdsa_network_object
      spec_implement_adaptation_mechanism ∅ (input_graph_config 0)
    = inr (h', graphs)) as (h' & graphs & Hres).
  { eexists _, _. vm_compute. reflexivity. }
  destruct (get_used_graphs_spec _ _ _ _ _ _ _ Hres)
    as (h1 & input_graph & h2 & snn_algo_graph & _ & _ & Hadapted).
  change (has_adaptation (settings (input_graph_config 0))) with true
    in Hadapted.
  destruct Hadapted
    as (adapted_snn_graph & adapted & Hgraphs & Hfresh & _ & Hh' & _).
  exists h2, h', input_graph, snn_algo_graph, adapted_snn_graph, adapted.
  split; [by rewrite <- Hgraphs|]. split; [exact Hfresh|exact Hh'].
Defined.

(** ** Stage 2: the run over all graphs *)

Lemma traced_for_app {A S} (l1 l2 : list A) (body : S → A → traced S)
    (s : S) :
  traced_for (l1 ++ l2) body s =
  let+ s' := traced_for l1 body s in traced_for l2 body s'.
Proof.
  revert s. induction l1 as [|x l1 IH]; intros s; simpl.
  - by destruct (traced_for l2 body s).
  - destruct (body s x) as [tr [e|s']]; simpl; [done|].
    rewrite IH. destruct (traced_for l1 body s') as [tr1 [e|s'']]; simpl.
    + done.
    + destruct (traced_for l2 body s'') as [tr2 r2]. by rewrite app_assoc.
Qed.

Section Stage2Run.

Variable assert_synaptic_edgeweight_type_is_correct :
  DiGraph → NodeName * NodeName * EdgeAttrs → py unit.
Variable assert_no_duplicate_edges_exist : DiGraph → py unit.
Variable old_graph_to_new_graph_properties : DiGraph → py DiGraph.
Variable verify_networkx_snn_spec : DiGraph → nat → py unit.
Variable add_nx_neurons_to_networkx_graph : DiGraph → nat → py DiGraph.
Variable get_sim_duration : DiGraph → RunConfig → py nat.
Variable run_snn_on_networkx : DiGraph → nat → py DiGraph.
Variable add_stage_completion_to_graph : DiGraph → nat → py DiGraph.
Variable run_config : RunConfig.

Local Abbreviation convert :=
  (convert_graph_snn_to_nx_snn
     assert_synaptic_edgeweight_type_is_correct
     assert_no_duplicate_edges_exist old_graph_to_new_graph_properties
     verify_networkx_snn_spec add_nx_neurons_to_networkx_graph).

Local Abbreviation sim_one :=
  (sim_graph
     assert_synaptic_edgeweight_type_is_correct
     assert_no_duplicate_edges_exist old_graph_to_new_graph_properties
     verify_networkx_snn_spec add_nx_neurons_to_networkx_graph
     get_sim_duration run_snn_on_networkx add_stage_completion_to_graph
     run_config).

Local Abbreviation loop_body :=
  (sim_graphs_body
     assert_synaptic_edgeweight_type_is_correct
     assert_no_duplicate_edges_exist old_graph_to_new_graph_properties
     verify_networkx_snn_spec add_nx_neurons_to_networkx_graph
     get_sim_duration run_snn_on_networkx add_stage_completion_to_graph
     run_config).

Local Abbreviation sim_all items :=
  (sim_graphs
     assert_synaptic_edgeweight_type_is_correct
     assert_no_duplicate_edges_exist old_graph_to_new_graph_properties
     verify_networkx_snn_spec add_nx_neurons_to_networkx_graph
     get_sim_duration run_snn_on_networkx add_stage_completion_to_graph
     items run_config).

(** What the loop does is independent of the items it is done with. *)
Lemma sim_graphs_loop_done (items done : list (string * DiGraph)) :
  traced_for items loop_body done =
  ((sim_all items).1,
   match (sim_all items).2 with
   | inl e => inl e
   | inr r => inr (done ++ r)
   end).
Proof.
  unfold sim_graphs. revert done.
  induction items as [|[name G] items IH]; intros done.
  - simpl. by rewrite app_nil_r.
  - cbn [traced_for]. rewrite !tbind_unfold, !loop_body_unfold.
    destruct (sim_one name G).2 as [e|G'] eqn:Hone; simpl; [done|].
    rewrite (IH (done ++ [(name, G')])), (IH [(name, G')]). simpl.
    destruct (traced_for items loop_body []).2; [done|].
    by rewrite <- app_assoc.
Qed.

(** X14: a run of [sim_graphs] over a dictionary continues the run over
    its first items: when that one raises, the run over the whole
    dictionary makes the same calls and raises the same error, so the
    graphs after a failing one are neither checked nor simulated; when it
    returns, the run goes on with the remaining items as a run of its
    own. *)
Theorem sim_graphs_app (l1 l2 : list (string * DiGraph)) :
  (raised (sim_all l1).2 → sim_all (l1 ++ l2) = sim_all l1) ∧
  (∀ r1, (sim_all l1).2 = inr r1 →
     (sim_all (l1 ++ l2)).1 = (sim_all l1).1 ++ (sim_all l2).1 ∧
     (sim_all (l1 ++ l2)).2 =
       match (sim_all l2).2 with
       | inl e => inl e
       | inr r2 => inr (r1 ++ r2)
       end).
Proof.
  assert (Happ : sim_all (l1 ++ l2) =
    let+ s' := sim_all l1 in traced_for l2 loop_body s').
  { unfold sim_graphs. apply traced_for_app. }
  split.
  - intros [e He]. rewrite Happ, tbind_unfold, He.
    destruct (sim_all l1) as [tr r]. simpl in *. by subst.
  - intros r1 Hr1. rewrite Happ, tbind_unfold, Hr1.
    rewrite sim_graphs_loop_done. simpl. done.
Qed.

Local Abbreviation edge_check graph_name G :=
  (λ (_ : unit) edge,
     call (EvEdgeWeightCheck graph_name G edge)
          (assert_synaptic_edgeweight_type_is_correct G edge)).

Lemma edge_checks_pass graph_name G (l : list _) :
  (∀ edge, edge ∈ l →
     assert_synaptic_edgeweight_type_is_correct G edge = inr tt) →
  traced_for l (edge_check graph_name G) tt =
  (EvEdgeWeightCheck graph_name G <$> l, inr tt).
Proof.
  induction l as [|x l IH]; intros Hpass; [done|].
  cbn [traced_for]. unfold call at 1. rewrite (Hpass x) by left.
  rewrite tbind_unfold. cbn [fst snd].
  rewrite IH by (intros; apply Hpass; by right). done.
Qed.

Lemma edge_checks_fail graph_name G (es1 es2 : list _) edge err :
  (∀ edge', edge' ∈ es1 →
     assert_synaptic_edgeweight_type_is_correct G edge' = inr tt) →
  assert_synaptic_edgeweight_type_is_correct G edge = inl err →
  traced_for (es1 ++ edge :: es2) (edge_check graph_name G) tt =
  (EvEdgeWeightCheck graph_name G <$> (es1 ++ [edge]), inl err).
Proof.
  intros Hpass Hfail. rewrite traced_for_app, edge_checks_pass by done.
  rewrite tbind_unfold. cbn [fst snd traced_for].
  unfold call at 1. rewrite Hfail. rewrite tbind_unfold. cbn [fst snd].
  by rewrite fmap_app.
Qed.

(** X15: the checks of [convert_graph_snn_to_nx_snn] are made in a fixed
    order and stop at the first one that raises: the weights of the edges
    in the order of the edges, nothing after the first edge that fails;
    then the duplicate edge check; then [verify_networkx_snn_spec], which
    is handed the graph [old_graph_to_new_graph_properties] returned; the
    neurons are added only after all of them. *)
Theorem convert_graph_snn_to_nx_snn_order (graph_name : string)
    (G : DiGraph) :
  (∀ es1 edge es2 err,
     edges G = es1 ++ edge :: es2 →
     (∀ edge', edge' ∈ es1 →
        assert_synaptic_edgeweight_type_is_correct G edge' = inr tt) →
     assert_synaptic_edgeweight_type_is_correct G edge = inl err →
     convert graph_name G =
     (EvEdgeWeightCheck graph_name G <$> (es1 ++ [edge]), inl err)) ∧
  ((∀ edge, edge ∈ edges G →
      assert_synaptic_edgeweight_type_is_correct G edge = inr tt) →
   (∀ err, assert_no_duplicate_edges_exist G = inl err →
      convert graph_name G =
      ((EvEdgeWeightCheck graph_name G <$> edges G) ++
       [EvDuplicateEdgeCheck graph_name G], inl err)) ∧
   (assert_no_duplicate_edges_exist G = inr tt →
    (∀ err, old_graph_to_new_graph_properties G = inl err →
       convert graph_name G =
       ((EvEdgeWeightCheck graph_name G <$> edges G) ++
        [EvDuplicateEdgeCheck graph_name G], inl err)) ∧
    (∀ G1, old_graph_to_new_graph_properties G = inr G1 →
       convert graph_name G =
       ((EvEdgeWeightCheck graph_name G <$> edges G) ++
        [EvDuplicateEdgeCheck graph_name G; EvVerifySpec graph_name G1 0],
        let* _ := verify_networkx_snn_spec G1 0 in
        add_nx_neurons_to_networkx_graph G1 0)))).
Proof.
  unfold convert_graph_snn_to_nx_snn. split.
  - intros es1 edge es2 err -> Hpass Hfail.
    by rewrite (edge_checks_fail _ _ _ _ _ _ Hpass Hfail).
  - intros Hpass. rewrite (edge_checks_pass _ _ _ Hpass).
    cbn [tbind]. unfold call, lift, tret. split.
    + intros err ->. done.
    + intros ->. split.
      * intros err ->. simpl. done.
      * intros G1 ->. simpl.
        destruct (verify_networkx_snn_spec G1 0) as [e|[]]; simpl; [done|].
        by destruct (add_nx_neurons_to_networkx_graph G1 0).
Qed.

Lemma run_names_not_run (tr : list event) :
  Forall (λ ev, is_run ev = false) tr → run_names tr = [].
Proof.
  induction 1 as [|ev tr Hev _ IH]; [done|].
  destruct ev; try discriminate Hev; exact IH.
Qed.

Lemma run_names_app (tr1 tr2 : list event) :
  run_names (tr1 ++ tr2) = run_names tr1 ++ run_names tr2.
Proof. apply omap_app. Qed.

Lemma convert_event_names graph_name G :
  Forall (λ ev, event_name ev = graph_name) (convert graph_name G).1.
Proof.
  unfold convert_graph_snn_to_nx_snn.
  assert (Hloop : ∀ l,
    Forall (λ ev, event_name ev = graph_name)
           (traced_for l (edge_check graph_name G) tt).1).
  { induction l as [|x l IH]; [constructor|].
    cbn [traced_for]. rewrite tbind_unfold. unfold call at 1.
    cbn [fst snd].
    destruct (assert_synaptic_edgeweight_type_is_correct G x) as [e|[]];
      cbn [fst snd]; [by repeat constructor|].
    by constructor. }
  specialize (Hloop (edges G)).
  destruct (traced_for (edges G) _ tt) as [tr0 [e|[]]]; simpl in *; [done|].
  destruct (assert_no_duplicate_edges_exist G) as [e|[]]; simpl;
    [apply Forall_app; split; [done|by repeat constructor]|].
  destruct (old_graph_to_new_graph_properties G) as [e|G1]; simpl;
    [apply Forall_app; split; [done|by repeat constructor]|].
  destruct (verify_networkx_snn_spec G1 0) as [e|[]]; simpl;
    [apply Forall_app; split; [done|by repeat constructor]|].
  destruct (add_nx_neurons_to_networkx_graph G1 0) as [e|G2]; simpl;
    apply Forall_app; split; done || by repeat constructor.
Qed.

(** One round of the loop: its events carry the name of its graph, which
    is not the input graph; when it returns, it simulated its graph once
    unless that is the input graph, which only gets its stage. *)
Lemma sim_one_shape graph_name G :
  Forall (λ ev, event_name ev = graph_name ∧ graph_name ≠ "input_graph")
         (sim_one graph_name G).1 ∧
  (graph_name = "input_graph" →
   (sim_one graph_name G).2 = add_stage_completion_to_graph G 2) ∧
  (∀ G', (sim_one graph_name G).2 = inr G' →
     run_names (sim_one graph_name G).1 =
     if decide (graph_name = "input_graph") then [] else [graph_name]).
Proof.
  unfold sim_graph.
  destruct (String.eqb_spec graph_name "input_graph") as [->|Hne];
    cbn [negb].
  { simpl. split; [|split].
    - by destruct (add_stage_completion_to_graph G 2).
    - intros _. by destruct (add_stage_completion_to_graph G 2).
    - intros G' _. by destruct (add_stage_completion_to_graph G 2). }
  rewrite decide_False by done.
  pose proof (convert_event_names graph_name G) as Hnames.
  destruct (convert_spec assert_synaptic_edgeweight_type_is_correct
              assert_no_duplicate_edges_exist
              old_graph_to_new_graph_properties verify_networkx_snn_spec
              add_nx_neurons_to_networkx_graph graph_name G)
    as (Hrun & _ & _).
  apply run_names_not_run in Hrun.
  assert (Hall : Forall (λ ev, event_name ev = graph_name ∧
                               graph_name ≠ "input_graph")
                        (convert graph_name G).1).
  { eapply Forall_impl; [exact Hnames|]. by intros ev ->. }
  destruct (convert graph_name G) as [trc [e|G2]]; simpl in *.
  { split; [done|]. split; done. }
  destruct (get_sim_duration G2 run_config) as [e|d0]; simpl.
  { rewrite app_nil_r. split; [done|]. split; done. }
  destruct (get_sim_duration (set_sim_duration G2 d0) run_config)
    as [e|d]; simpl.
  { rewrite !app_nil_r. split; [done|]. split; done. }
  assert (Hall' : Forall (λ ev, event_name ev = graph_name ∧
                                graph_name ≠ "input_graph")
    (trc ++ [EvRunSnn graph_name (set_sim_duration G2 d0) d])).
  { apply Forall_app. split; [done|]. by repeat constructor. }
  destruct (run_snn_on_networkx (set_sim_duration G2 d0) d) as [e|G4];
    simpl.
  { split; [done|]. split; done. }
  destruct (add_stage_completion_to_graph G4 2) as [e|G5]; simpl;
    rewrite !app_nil_r; (split; [done|]); (split; [done|]).
  - done.
  - intros G' _. rewrite run_names_app, Hrun. done.
Qed.

Lemma sim_all_cons graph_name G (items : list (string * DiGraph)) :
  sim_all ((graph_name, G) :: items) =
  match (sim_one graph_name G).2 with
  | inl e => ((sim_one graph_name G).1, inl e)
  | inr G' =>
      ((sim_one graph_name G).1 ++ (sim_all items).1,
       match (sim_all items).2 with
       | inl e => inl e
       | inr r => inr ((graph_name, G') :: r)
       end)
  end.
Proof.
  unfold sim_graphs at 1. cbn [traced_for].
  rewrite tbind_unfold, loop_body_unfold.
  destruct (sim_one graph_name G).2 as [e|G']; simpl; [done|].
  by rewrite sim_graphs_loop_done.
Qed.

(** X16: when [sim_graphs] returns, it returns the items under the same
    keys in the same order, and it simulated every graph that is not the
    input graph exactly once, in the order of the dictionary. *)
Theorem sim_graphs_simulates_each_graph_once
    (items r : list (string * DiGraph)) :
  (sim_all items).2 = inr r →
  r.*1 = items.*1 ∧
  run_names (sim_all items).1
  = filter (λ n, n ≠ "input_graph") items.*1.
Proof.
  revert r. induction items as [|[name G] items IH]; intros r.
  - unfold sim_graphs. simpl. by intros [= <-].
  - rewrite sim_all_cons.
    destruct (sim_one_shape name G) as (_ & _ & Hruns).
    destruct (sim_one name G).2 as [e|G'] eqn:Hone; simpl; [done|].
    destruct (sim_all items).2 as [e|r'] eqn:Hrest; [done|].
    intros [= <-]. destruct (IH r' eq_refl) as [Hkeys Hrun].
    split; [simpl; f_equal; exact Hkeys|].
    rewrite run_names_app, Hrun, (Hruns G' eq_refl), filter_cons.
    destruct (decide (name = "input_graph")) as [Heq|Hne].
    + rewrite decide_False by (intros H; by apply H). reflexivity.
    + rewrite decide_True by done. reflexivity.
Qed.

(** X17: [sim_graphs] neither checks nor simulates the input graph, it
    only marks its stage: no call in the trace is for the key
    ["input_graph"], every call is for a key of the dictionary, and a
    dictionary that only holds the input graph gives no call at all and
    the graph [add_stage_completion_to_graph] returns. *)
Theorem sim_graphs_skips_input_graph (items : list (string * DiGraph)) :
  (∀ ev, ev ∈ (sim_all items).1 →
     event_name ev ≠ "input_graph" ∧ event_name ev ∈ items.*1) ∧
  (∀ G, items = [("input_graph", G)] →
     sim_all items =
     ([], match add_stage_completion_to_graph G 2 with
          | inl e => inl e
          | inr G' => inr [("input_graph", G')]
          end)).
Proof.
  split.
  - induction items as [|[name G] items IH]; intros ev.
    + unfold sim_graphs. simpl. intros H. by apply elem_of_nil in H.
    + rewrite sim_all_cons.
      destruct (sim_one_shape name G) as (Hnames & _ & _).
      rewrite Forall_forall in Hnames.
      assert (Hhere : ev ∈ (sim_one name G).1 →
        event_name ev ≠ "input_graph" ∧
        event_name ev ∈ ((name, G) :: items).*1).
      { intros Hin. destruct (Hnames _ Hin) as [-> Hne].
        split; [done|left]. }
      destruct (sim_one name G).2 as [e|G']; simpl; [done|].
      intros [Hin|Hin]%elem_of_app; [by apply Hhere|].
      destruct (IH _ Hin). split; [done|by right].
  - intros G ->. rewrite sim_all_cons.
    destruct (sim_one_shape "input_graph" G) as (Hnames & Hres & _).
    rewrite (Hres eq_refl).
    assert (Hempty : (sim_one "input_graph" G).1 = []).
    { destruct (sim_one "input_graph" G).1 as [|ev tr]; [done|].
      apply Forall_cons in Hnames as [[_ Hne] _]. done. }
    rewrite Hempty.
    by destruct (add_stage_completion_to_graph G 2).
Qed.

End Stage2Run.

Lemma sim_graphs_app_witness :
  spec_sim_graphs
    (stage_1_graphs_with_fault ++ [("adapted_snn_graph", compiled_graph)])
    mdsa_run_config
  = spec_sim_graphs stage_1_graphs_with_fault mdsa_run_config.
Proof.
  apply (proj1 (sim_graphs_app
           spec_assert_synaptic_edgeweight_type_is_correct
           spec_assert_no_duplicate_edges_exist
           spec_old_graph_to_new_graph_properties
           spec_verify_networkx_snn_spec
           spec_add_nx_neurons_to_networkx_graph
           spec_get_sim_duration spec_run_snn_on_networkx
           spec_add_stage_completion_to_graph
           mdsa_run_config stage_1_graphs_with_fault
           [("adapted_snn_graph", compiled_graph)])).
  eexists. vm_compute. reflexivity.
Defined.

Lemma convert_graph_snn_to_nx_snn_order_witness :
  spec_convert_graph_snn_to_nx_snn "snn_algo_graph" graph_missing_vth
  = ((EvEdgeWeightCheck "snn_algo_graph" graph_missing_vth
        <$> edges graph_missing_vth) ++
     [EvDuplicateEdgeCheck "snn_algo_graph" graph_missing_vth;
      EvVerifySpec "snn_algo_graph" graph_missing_vth 0],
     inl (Exception neuron_spec_msg)).
Proof.
  destruct (convert_graph_snn_to_nx_snn_order
              spec_assert_synaptic_edgeweight_type_is_correct
              spec_assert_no_duplicate_edges_exist
              spec_old_graph_to_new_graph_properties
              spec_verify_networkx_snn_spec
              spec_add_nx_neurons_to_networkx_graph
              "snn_algo_graph" graph_missing_vth) as [_ Hpass].
  destruct Hpass as [_ Hdup].
  { apply Forall_forall. unfold graph_missing_vth. cbn [edges].
    repeat constructor. }
  destruct Hdup as [_ Hverify]; [vm_compute; reflexivity|].
  exact (Hverify graph_missing_vth eq_refl).
Defined.

Lemma sim_graphs_simulates_each_graph_once_witness :
  ∃ r, (spec_sim_graphs stage_1_graphs_example mdsa_run_config).2 = inr r ∧
       r.*1 = ["input_graph"; "snn_algo_graph"; "adapted_snn_graph"] ∧
       run_names (spec_sim_graphs stage_1_graphs_example mdsa_run_config).1
       = ["snn_algo_graph"; "adapted_snn_graph"].
Proof.
  assert (Hr : ∃ r,
    (spec_sim_graphs stage_1_graphs_example mdsa_run_config).2 = inr r)
    by (eexists; vm_compute; reflexivity).
  destruct Hr as [r Hr]. exists r. split; [exact Hr|].
  exact (sim_graphs_simulates_each_graph_once
           spec_assert_synaptic_edgeweight_type_is_correct
           spec_assert_no_duplicate_edges_exist
           spec_old_graph_to_new_graph_properties
           spec_verify_networkx_snn_spec
           spec_add_nx_neurons_to_networkx_graph
           spec_get_sim_duration spec_run_snn_on_networkx
           spec_add_stage_completion_to_graph
           mdsa_run_config stage_1_graphs_example r Hr).
Defined.

Lemma sim_graphs_skips_input_graph_witness :
  spec_sim_graphs [("input_graph", one_node_with_props)] mdsa_run_config
  = ([], match spec_add_stage_completion_to_graph one_node_with_props 2 with
         | inl e => inl e
         | inr G' => inr [("input_graph", G')]
         end).
Proof.
  apply (proj2 (sim_graphs_skips_input_graph
           spec_assert_synaptic_edgeweight_type_is_correct
           spec_assert_no_duplicate_edges_exist
           spec_old_graph_to_new_graph_properties
           spec_verify_networkx_snn_spec
           spec_add_nx_neurons_to_networkx_graph
           spec_get_sim_duration spec_run_snn_on_networkx
           spec_add_stage_completion_to_graph
           mdsa_run_config [("input_graph", one_node_with_props)])).
  reflexivity.
Defined.
